(** * A cooperative task scheduler (new_worm/scheduler.c)

    Shallow embedding of the scheduler of the worm lab: the task table,
    the polling loop of [schedule], the life-cycle functions
    [scheduler_init], [task_create], [task_exit] and the blocking calls
    [task_wait], [task_sleep], [task_readchar].

    The C globals [current_task], [num_tasks] and [tasks] are threaded
    through a state monad.  The clock, the keyboard and the OS pause
    ([time_ms], [getch], [sleep_ms]) are an interface the scheduler calls
    into.  The [while (true)] loop takes fuel; when the fuel is spent the
    state reached so far is kept, so that properties of a scheduler that
    polls for ever can still be stated. *)

From Stdlib Require Import ZArith Lia List Bool.
From stdpp Require Import base list.

Local Open Scope Z_scope.

(** ** Constants of the source *)

Definition is_running : Z := 1.
Definition blocked_on_input : Z := 2.
Definition blocked_on_sleep : Z := 3.
Definition blocked_on_join : Z := 4.
Definition exited : Z := 5.
Definition ready : Z := 6.

Definition MAX_TASKS : Z := 128.
Definition STACK_SIZE : Z := 65536.

(** curses' [ERR]. *)
Definition ERR : Z := -1.

(** [size_t] arithmetic wraps at 2^64. *)
Definition SIZE_MOD : Z := 2 ^ 64.
Definition size_add (a b : Z) : Z := (a + b) mod SIZE_MOD.

(** ** Execution contexts

    A [ucontext_t] is kept as the little the scheduler writes into it:
    where it resumes, which stack it runs on and which context follows
    when its function returns. *)

Inductive code :=
| user_fn (id : nat)
| fn_task_exit.

Inductive call_site :=
| in_task_create
| in_schedule.

Inductive resume :=
| resume_none
| resume_at (site : call_site)
| resume_call (fn : code).

Record ucontext := UContext {
  uc_resume : resume;
  uc_stack_sp : option nat;
  uc_stack_size : Z;
  uc_link : option Z
}.

Definition zero_context : ucontext := UContext resume_none None 0 None.

Definition getcontext (uc : ucontext) : ucontext :=
  UContext (resume_at in_task_create) (uc_stack_sp uc) (uc_stack_size uc) (uc_link uc).

Definition set_stack (sp : nat) (size : Z) (uc : ucontext) : ucontext :=
  UContext (uc_resume uc) (Some sp) size (uc_link uc).

Definition set_link (owner : Z) (uc : ucontext) : ucontext :=
  UContext (uc_resume uc) (uc_stack_sp uc) (uc_stack_size uc) (Some owner).

Definition makecontext (fn : code) (uc : ucontext) : ucontext :=
  UContext (resume_call fn) (uc_stack_sp uc) (uc_stack_size uc) (uc_link uc).

(** ** Task records *)

Record task_info := TaskInfo {
  context : ucontext;
  exit_context : ucontext;
  status : Z;
  wake_time : Z;
  join_thread : Z;
  input : Z
}.

Definition zero_task : task_info := TaskInfo zero_context zero_context 0 0 0 0.

Definition set_context (f : ucontext -> ucontext) (ti : task_info) : task_info :=
  TaskInfo (f (context ti)) (exit_context ti) (status ti) (wake_time ti) (join_thread ti) (input ti).

Definition set_exit_context (f : ucontext -> ucontext) (ti : task_info) : task_info :=
  TaskInfo (context ti) (f (exit_context ti)) (status ti) (wake_time ti) (join_thread ti) (input ti).

Definition set_status (s : Z) (ti : task_info) : task_info :=
  TaskInfo (context ti) (exit_context ti) s (wake_time ti) (join_thread ti) (input ti).

Definition set_wake_time (w : Z) (ti : task_info) : task_info :=
  TaskInfo (context ti) (exit_context ti) (status ti) w (join_thread ti) (input ti).

Definition set_join_thread (h : Z) (ti : task_info) : task_info :=
  TaskInfo (context ti) (exit_context ti) (status ti) (wake_time ti) h (input ti).

Definition set_input (c : Z) (ti : task_info) : task_info :=
  TaskInfo (context ti) (exit_context ti) (status ti) (wake_time ti) (join_thread ti) c.

(** ** The services the scheduler calls into

    [time_ms] and [sleep_ms] come from util.h, [getch] from curses.  Each
    call may change the outside world (time passes, a key is consumed). *)

Class Platform (world : Type) := {
  time_ms : world -> Z * world;
  getch : world -> Z * world;
  sleep_ms : Z -> world -> world
}.

(** What the specification asks of the clock: readings are unsigned, they
    never go back and a pause of [n] milliseconds lasts at least [n]. *)

Class ClockLaws (world : Type) `{Platform world} := {
  clock_nonneg : forall w, 0 <= (time_ms w).1;
  clock_time_ms : forall w, (time_ms w).1 <= (time_ms (time_ms w).2).1;
  clock_getch : forall w, (time_ms w).1 <= (time_ms (getch w).2).1;
  clock_sleep_ms : forall n w, 0 <= n -> (time_ms w).1 + n <= (time_ms (sleep_ms n w)).1
}.

Section Scheduler.

Context {world : Type} `{Platform world}.

(** ** Machine state: the globals of scheduler.c, the allocator and the world *)

Record machine := Machine {
  current_task : Z;
  num_tasks : Z;
  tasks : list task_info;
  brk : nat;
  env : world
}.

Definition with_current (c : Z) (m : machine) : machine :=
  Machine c (num_tasks m) (tasks m) (brk m) (env m).

Definition with_num (n : Z) (m : machine) : machine :=
  Machine (current_task m) n (tasks m) (brk m) (env m).

Definition with_tasks (l : list task_info) (m : machine) : machine :=
  Machine (current_task m) (num_tasks m) l (brk m) (env m).

Definition with_brk (b : nat) (m : machine) : machine :=
  Machine (current_task m) (num_tasks m) (tasks m) b (env m).

Definition with_env (w : world) (m : machine) : machine :=
  Machine (current_task m) (num_tasks m) (tasks m) (brk m) w.

(** The state of the globals when [main] starts: static storage is zeroed,
    [current_task = 0] and [num_tasks = 1]. *)

Definition boot (w : world) : machine :=
  Machine 0 1 (replicate (Z.to_nat MAX_TASKS) zero_task) 0%nat w.

(** ** Outcomes

    [Done a m]: the call came back with [a] in state [m].
    [Spin m]: the polling loop was still going round when the fuel ran
    out; [m] is the state it had reached.
    [Undefined m]: the next step is undefined in C (an index outside
    [tasks], a remainder by zero, a signed overflow); [m] is the state
    just before it. *)

Inductive outcome (A : Type) :=
| Done (a : A) (m : machine)
| Spin (m : machine)
| Undefined (m : machine).

Arguments Done {A} a m.
Arguments Spin {A} m.
Arguments Undefined {A} m.

Definition final {A} (o : outcome A) : machine :=
  match o with
  | Done _ m => m
  | Spin m => m
  | Undefined m => m
  end.

Definition M (A : Type) : Type := machine -> outcome A.

Definition ret {A} (a : A) : M A := fun m => Done a m.

Definition bind {A B} (c : M A) (k : A -> M B) : M B :=
  fun m =>
    match c m with
    | Done a m' => k a m'
    | Spin m' => Spin m'
    | Undefined m' => Undefined m'
    end.

Notation "x <- c ; k" := (bind c (fun x => k))
  (at level 100, c at next level, k at level 200, right associativity, only parsing).
Notation "c >> k" := (bind c (fun _ => k))
  (at level 100, k at level 200, right associativity, only parsing).

Definition undefined {A} : M A := fun m => Undefined m.

(** Reads and writes of the globals. *)

Definition rd_current : M Z := fun m => Done (current_task m) m.
Definition wr_current (c : Z) : M unit := fun m => Done tt (with_current c m).
Definition rd_num : M Z := fun m => Done (num_tasks m) m.
Definition wr_num (n : Z) : M unit := fun m => Done tt (with_num n m).

(** [tasks[i]]: defined only inside the array. *)

Definition slot (l : list task_info) (i : Z) : option task_info :=
  if (0 <=? i) && (i <? MAX_TASKS) then l !! Z.to_nat i else None.

Definition rd_task (i : Z) : M task_info :=
  fun m =>
    match slot (tasks m) i with
    | Some ti => Done ti m
    | None => Undefined m
    end.

Definition wr_task (i : Z) (f : task_info -> task_info) : M unit :=
  fun m =>
    match slot (tasks m) i with
    | Some ti => Done tt (with_tasks (<[Z.to_nat i := f ti]> (tasks m)) m)
    | None => Undefined m
    end.

(** Calls into the platform. *)

Definition call_time_ms : M Z :=
  fun m => let r := time_ms (env m) in Done r.1 (with_env r.2 m).

Definition call_getch : M Z :=
  fun m => let r := getch (env m) in Done r.1 (with_env r.2 m).

Definition call_sleep_ms (n : Z) : M unit :=
  fun m => Done tt (with_env (sleep_ms n (env m)) m).

Definition malloc : M nat :=
  fun m => Done (brk m) (with_brk (S (brk m)) m).

(** [(i + 1) % num_tasks], C's remainder. *)

Definition ring_next (i : Z) : M Z :=
  n <- rd_num;
  if n =? 0 then undefined else ret (Z.rem (i + 1) n).

(** ** schedule *)

(** How a call into the scheduler ends for its caller: it comes back, or
    [swapcontext] has left for another context. *)

Inductive control (A : Type) :=
| returned (a : A)
| switched (saved : task_info) (target : ucontext).

Arguments returned {A} a.
Arguments switched {A} saved target.

(** One turn of the loop body up to the [break]s: [true] is a [break]. *)

Definition schedule_visit (t index : Z) : M bool :=
  ti <- rd_task index;
  if status ti =? ready then
    wr_task index (set_status is_running) >>
    wr_current index >>
    ret true
  else if status ti =? blocked_on_sleep then
    now <- call_time_ms;
    if wake_time ti <=? now then
      wr_task index (set_status is_running) >>
      wr_current index >>
      ret true
    else ret false
  else if status ti =? blocked_on_join then
    if t =? join_thread ti then
      wr_task index (set_status is_running) >>
      wr_current index >>
      ret true
    else ret false
  else if status ti =? blocked_on_input then
    res <- call_getch;
    if negb (res =? ERR) then
      wr_task index (set_status is_running) >>
      wr_current index >>
      wr_task index (set_input res) >>
      ret true
    else ret false
  else ret false.

(** The [while (true)] loop. *)

Fixpoint schedule_loop (fuel : nat) (t index : Z) : M Z :=
  match fuel with
  | O => fun m => Spin m
  | S fuel' =>
      found <- schedule_visit t index;
      if found : bool then ret index
      else
        index' <- ring_next index;
        call_sleep_ms 1 >>
        schedule_loop fuel' t index'
  end.

Definition schedule (fuel : nat) (t : Z) : M (control unit) :=
  current_task_info <- rd_task t;
  index <- ring_next t;
  index <- schedule_loop fuel t index;
  cur <- rd_current;
  if index =? cur then ret (returned tt)
  else
    target <- rd_task index;
    ret (switched (set_context (fun _ => UContext (resume_at in_schedule)
                                           (uc_stack_sp (context current_task_info))
                                           (uc_stack_size (context current_task_info))
                                           (uc_link (context current_task_info)))
                               current_task_info)
                  (context target)).

(** ** Life cycle *)

Definition scheduler_init : M unit :=
  wr_task 0 (set_status is_running).

Definition task_exit (fuel : nat) : M (control unit) :=
  c <- rd_current;
  wr_task c (set_status exited) >>
  c <- rd_current;
  schedule fuel c.

Definition INT_MAX : Z := 2 ^ 31 - 1.

Definition task_create (fn : code) : M Z :=
  index <- rd_num;
  (if index =? INT_MAX then undefined else wr_num (index + 1)) >>
  wr_task index (set_exit_context getcontext) >>
  sp <- malloc;
  wr_task index (set_exit_context (set_stack sp STACK_SIZE)) >>
  wr_task index (set_exit_context (makecontext fn_task_exit)) >>
  wr_task index (set_context getcontext) >>
  sp <- malloc;
  wr_task index (set_context (set_stack sp STACK_SIZE)) >>
  wr_task index (set_context (set_link index)) >>
  wr_task index (set_context (makecontext fn)) >>
  wr_task index (set_status ready) >>
  ret index.

(** ** Blocking calls *)

Definition task_wait (fuel : nat) (handle : Z) : M (control unit) :=
  c <- rd_current;
  wr_task c (set_status blocked_on_join) >>
  c <- rd_current;
  wr_task c (set_join_thread handle) >>
  c <- rd_current;
  schedule fuel c.

Definition task_sleep (fuel : nat) (ms : Z) : M (control unit) :=
  c <- rd_current;
  wr_task c (set_status blocked_on_sleep) >>
  now <- call_time_ms;
  c <- rd_current;
  wr_task c (set_wake_time (size_add now ms)) >>
  c <- rd_current;
  schedule fuel c.

Definition task_readchar (fuel : nat) : M (control Z) :=
  c <- rd_current;
  wr_task c (set_status blocked_on_input) >>
  c <- rd_current;
  r <- schedule fuel c;
  match r with
  | returned _ =>
      c <- rd_current;
      ti <- rd_task c;
      ret (returned (input ti))
  | switched saved target => ret (switched saved target)
  end.

End Scheduler.

Arguments machine world : clear implicits.
Arguments outcome world A : clear implicits.
Arguments M world A : clear implicits.
Arguments Machine {world} current_task num_tasks tasks brk env.
Arguments Done {world A} a m.
Arguments Spin {world A} m.
Arguments Undefined {world A} m.
Arguments returned {A} a.
Arguments switched {A} saved target.

(** ** Sequences of scheduler calls

    The calls a program makes into the scheduler, in the order in which
    they happen in the process. *)

Inductive op :=
| Create (fn : code)
| Sleep (ms : Z)
| Wait (handle : Z)
| Readchar
| Exit.

Section Runs.

Context {world : Type} `{Platform world}.

Definition forget {A} (o : outcome world A) : outcome world unit :=
  match o with
  | Done _ m => Done tt m
  | Spin m => Spin m
  | Undefined m => Undefined m
  end.

Definition step (fuel : nat) (o : op) : M world unit :=
  fun m =>
    match o with
    | Create fn => forget (task_create fn m)
    | Sleep ms => forget (task_sleep fuel ms m)
    | Wait h => forget (task_wait fuel h m)
    | Readchar => forget (task_readchar fuel m)
    | Exit => forget (task_exit fuel m)
    end.

Fixpoint run (fuel : nat) (ops : list op) : M world unit :=
  match ops with
  | [] => ret tt
  | o :: ops' => bind (step fuel o) (fun _ => run fuel ops')
  end.

(** The state once [main] has called [scheduler_init]. *)

Definition started (w : world) : machine world := final (scheduler_init (boot w)).

(** A call that yields: every public call but [task_create]. *)

Definition yields (o : op) : bool :=
  match o with
  | Create _ => false
  | _ => true
  end.

(** ** Reading the table *)

Definition status_of (m : machine world) (i : Z) : option Z :=
  status <$> slot (tasks m) i.

(** What a yielding call writes into its caller's record, and where that
    leaves the machine, before it enters [schedule]. *)

Definition parked (o : op) (tc : task_info) (w : world) : task_info :=
  match o with
  | Create _ => tc
  | Sleep ms => set_wake_time (size_add (time_ms w).1 ms) (set_status blocked_on_sleep tc)
  | Wait h => set_join_thread h (set_status blocked_on_join tc)
  | Readchar => set_status blocked_on_input tc
  | Exit => set_status exited tc
  end.

Definition parked_world (o : op) (w : world) : world :=
  match o with
  | Sleep _ => (time_ms w).2
  | _ => w
  end.

Definition park (o : op) (m : machine world) : machine world :=
  match slot (tasks m) (current_task m) with
  | Some tc =>
      Machine (current_task m) (num_tasks m)
              (<[Z.to_nat (current_task m) := parked o tc (env m)]> (tasks m))
              (brk m) (parked_world o (env m))
  | None => m
  end.

Definition table_ok (m : machine world) : Prop :=
  length (tasks m) = Z.to_nat MAX_TASKS.

Definition wf (m : machine world) : Prop :=
  table_ok m /\ 0 <= current_task m < num_tasks m /\ num_tasks m <= MAX_TASKS.

(** ** The scan, as the specification words it

    Slot [ring t n k] is the [k]-th slot after the caller in ring order.
    A slot is [eligible] when the scheduler would pick it on looking at
    it; looking costs the world a probe ([probe_world]) and picking
    leaves the record [picked]. *)

Definition ring (t n : Z) (k : nat) : Z := (t + 1 + Z.of_nat k) mod n.

Definition eligible (t : Z) (ti : task_info) (w : world) : bool :=
  if status ti =? ready then true
  else if status ti =? blocked_on_sleep then wake_time ti <=? (time_ms w).1
  else if status ti =? blocked_on_join then t =? join_thread ti
  else if status ti =? blocked_on_input then negb ((getch w).1 =? ERR)
  else false.

Definition probe_world (ti : task_info) (w : world) : world :=
  if status ti =? blocked_on_sleep then (time_ms w).2
  else if status ti =? blocked_on_input then (getch w).2
  else w.

Definition picked (ti : task_info) (w : world) : task_info :=
  if status ti =? blocked_on_input
  then set_input (getch w).1 (set_status is_running ti)
  else set_status is_running ti.

Definition chosen (m : machine world) (i : Z) (ti : task_info) (w : world) : machine world :=
  Machine i (num_tasks m) (<[Z.to_nat i := picked ti w]> (tasks m)) (brk m) (probe_world ti w).

(** The world after [k] slots were looked at and passed over. *)

Fixpoint skipped (t : Z) (m : machine world) (k : nat) : world :=
  match k with
  | O => env m
  | S k' =>
      let w := skipped t m k' in
      match slot (tasks m) (ring t (num_tasks m) k') with
      | Some ti => sleep_ms 1 (probe_world ti w)
      | None => w
      end
  end.

Definition hit (t : Z) (m : machine world) (k : nat) : Prop :=
  exists ti, slot (tasks m) (ring t (num_tasks m) k) = Some ti /\
             eligible t ti (skipped t m k) = true.

Definition miss (t : Z) (m : machine world) (k : nat) : Prop :=
  exists ti, slot (tasks m) (ring t (num_tasks m) k) = Some ti /\
             eligible t ti (skipped t m k) = false.

(** ** What the loop, [schedule] and a yielding call leave behind *)

Definition loop_post (t : Z) (m : machine world) (k : nat) (fuel : nat)
    (o : outcome world Z) : Prop :=
  match o with
  | Done i m' =>
      exists j ti, (k <= j < k + fuel)%nat /\ i = ring t (num_tasks m) j /\
        slot (tasks m) i = Some ti /\
        eligible t ti (skipped t m j) = true /\
        (forall j', (k <= j' < j)%nat -> miss t m j') /\
        m' = chosen m i ti (skipped t m j)
  | Spin m' =>
      (forall j', (k <= j' < k + fuel)%nat -> miss t m j') /\
      m' = with_env (skipped t m (k + fuel)) m
  | Undefined _ => False
  end.

Definition schedule_post {A} (t : Z) (m : machine world) (fuel : nat)
    (o : outcome world (control A)) : Prop :=
  match o with
  | Done c m' =>
      (exists a, c = returned a) /\ loop_post t m 0 fuel (Done (current_task m') m')
  | Spin m' => loop_post t m 0 fuel (Spin m')
  | Undefined _ => False
  end.

Definition yield_post (t : Z) (m : machine world) (fuel : nat)
    (o : outcome world unit) : Prop :=
  match o with
  | Done _ m' => loop_post t m 0 fuel (Done (current_task m') m')
  | Spin m' => loop_post t m 0 fuel (Spin m')
  | Undefined _ => False
  end.

(** The record [task_create] leaves in the slot it claims. *)

Definition created (fn : code) (index : Z) (sp : nat) (old : task_info) : task_info :=
  set_status ready
    (set_context (makecontext fn)
      (set_context (set_link index)
        (set_context (set_stack (S sp) STACK_SIZE)
          (set_context getcontext
            (set_exit_context (makecontext fn_task_exit)
              (set_exit_context (set_stack sp STACK_SIZE)
                (set_exit_context getcontext old))))))).

(** Exactly one record is [is_running], and it is the one [current_task]
    names. *)

Definition sole_running (m : machine world) : Prop :=
  forall j tj, slot (tasks m) j = Some tj ->
    (status tj = is_running <-> j = current_task m).

(** Task [a] is parked in a join on [h], and [h] has exited. *)



(** ** Sleeping

    [clock w] is what [time_ms] would read in world [w].  Task [s] is
    [asleep] until [D] when its record is [blocked_on_sleep] with wake
    time [D] and another task is the current one. *)

Definition clock (w : world) : Z := (time_ms w).1.

Definition asleep_record (s D : Z) (m : machine world) : Prop :=
  exists ts, slot (tasks m) s = Some ts /\
             status ts = blocked_on_sleep /\ wake_time ts = D.

Definition asleep (s D : Z) (m : machine world) : Prop :=
  wf m /\ asleep_record s D m /\ 0 <= s < num_tasks m /\ current_task m <> s.

(** The record of [s] still carries wake time [D]; it is asleep, or has
    just been selected. *)

Definition asleep_record_or_running (m : machine world) (s D : Z) : Prop :=
  exists ts, slot (tasks m) s = Some ts /\
             (status ts = blocked_on_sleep \/ status ts = is_running) /\
             wake_time ts = D.

(** The tie-break of the specification: within [fuel] looks, slot
    [(t + 1 + k) mod num_tasks] is eligible at the [k]-th look, each of
    the [k] slots before it in ring order was looked at and was not, and
    [m'] is the machine with that slot picked. *)

Definition first_eligible (fuel : nat) (t : Z) (m m' : machine world) : Prop :=
  exists k ti,
    (k < fuel)%nat /\
    slot (tasks m) ((t + 1 + Z.of_nat k) mod num_tasks m) = Some ti /\
    eligible t ti (skipped t m k) = true /\
    (forall j, (j < k)%nat -> miss t m j) /\
    m' = chosen m ((t + 1 + Z.of_nat k) mod num_tasks m) ti (skipped t m k).

(** ** Further vocabulary *)

(** The number of [task_create] calls in a sequence of calls. *)

Fixpoint creates (ops : list op) : Z :=
  match ops with
  | [] => 0
  | o :: ops' => (if yields o then 0 else 1) + creates ops'
  end.

(** A record the caller [t] can never wake by polling: it is neither
    ready, nor asleep, nor waiting for a key, and if it waits in a join
    its target is not [t]. *)

Definition never_eligible (t : Z) (ti : task_info) : Prop :=
  status ti <> ready /\ status ti <> blocked_on_sleep /\
  status ti <> blocked_on_input /\
  (status ti = blocked_on_join -> join_thread ti <> t).

(** A record the scan takes as soon as it looks at it, whatever the clock
    and the keyboard say. *)

Definition surely_eligible (t : Z) (ti : task_info) : Prop :=
  status ti = ready \/ (status ti = blocked_on_join /\ join_thread ti = t).

(** Stack [sp] backs one of the two contexts of the record. *)

Definition has_stack (ti : task_info) (sp : nat) : Prop :=
  uc_stack_sp (context ti) = Some sp \/ uc_stack_sp (exit_context ti) = Some sp.

Definition stacks_below (m : machine world) : Prop :=
  forall i ti sp, slot (tasks m) i = Some ti -> has_stack ti sp -> (sp < brk m)%nat.

(** Task [h] has exited and another task is the current one. *)

Definition gone (h : Z) (m : machine world) : Prop :=
  wf m /\ status_of m h = Some exited /\ 0 <= h < num_tasks m /\ current_task m <> h.


(** The two saved contexts of task [h]. *)

Definition contexts_at (m : machine world) (h : Z) : option (ucontext * ucontext) :=
  (fun ti => (context ti, exit_context ti)) <$> slot (tasks m) h.

(** The six status values of the source. *)

Definition known_status (s : Z) : Prop :=
  s = is_running \/ s = blocked_on_input \/ s = blocked_on_sleep \/
  s = blocked_on_join \/ s = exited \/ s = ready.

(** The slots below [num_tasks] hold tasks, the slots above have never
    been written. *)

Definition shaped (m : machine world) : Prop :=
  forall i ti, slot (tasks m) i = Some ti ->
    (i < num_tasks m -> known_status (status ti)) /\
    (num_tasks m <= i -> ti = zero_task).


End Runs.

(** ** A simulated platform

    A millisecond counter that only [sleep_ms] moves and a keyboard whose
    keys arrive at given times: [getch] hands out the first key once its
    time has come. *)

Record sim := Sim {
  sim_now : N;
  sim_keys : list (N * Z)
}.

Definition sim_getch (w : sim) : Z * sim :=
  match sim_keys w with
  | (at_ms, key) :: rest =>
      if (at_ms <=? sim_now w)%N then (key, Sim (sim_now w) rest) else (ERR, w)
  | [] => (ERR, w)
  end.

#[export] Instance sim_platform : Platform sim := {
  time_ms w := (Z.of_N (sim_now w), w);
  getch := sim_getch;
  sleep_ms n w := Sim (sim_now w + Z.to_N n) (sim_keys w)
}.

(** [n] tasks created one after the other. *)

Fixpoint spawn (n : nat) (m : machine sim) : machine sim :=
  match n with
  | O => m
  | S n' => final (task_create (user_fn n') (spawn n' m))
  end.

Definition quiet : sim := Sim 0 [].

(** No key in the queue has the code of [ERR]: curses keeps that value
    for "no key". *)

Definition real_keys (w : sim) : Prop :=
  Forall (fun k => k.2 <> ERR) (sim_keys w).

(** [main] and one task. *)

Definition two_tasks : machine sim := spawn 1 (started quiet).

(** [main] and one task, with the key 'x' already typed. *)

Definition two_tasks_key : machine sim := spawn 1 (started (Sim 0 [(0%N, 120)])).

(** A full table: [main] and 127 tasks. *)

Definition full_table : machine sim := spawn 127 (started quiet).

(** [main] and one task that has run to its end: [main] slept, the task
    was selected and exited, and [main] was selected again. *)

Definition one_exited : machine sim :=
  final (run 2 [Sleep 0; Exit] two_tasks).

(** * Properties *)

Section Proofs.

Context {world : Type} `{Platform world}.

Implicit Types (m : machine world) (l : list task_info) (ti : task_info).

(** ** The table *)

Lemma slot_Some l i ti :
  slot l i = Some ti -> 0 <= i < MAX_TASKS /\ l !! Z.to_nat i = Some ti.
Proof.
  unfold slot. destruct (0 <=? i) eqn:E1; destruct (i <? MAX_TASKS) eqn:E2;
    simpl; try discriminate.
  intros ->. split; [lia | reflexivity].
Qed.

Lemma slot_in_range l i :
  length l = Z.to_nat MAX_TASKS -> 0 <= i < MAX_TASKS -> exists ti, slot l i = Some ti.
Proof.
  intros Hlen Hi. unfold slot.
  replace (0 <=? i) with true by (symmetry; apply Z.leb_le; lia).
  replace (i <? MAX_TASKS) with true by (symmetry; apply Z.ltb_lt; lia).
  simpl. destruct (lookup_lt_is_Some_2 l (Z.to_nat i)) as [ti Hti]; [lia | eauto].
Qed.

Lemma slot_insert_eq l i ti x :
  slot l i = Some ti -> slot (<[Z.to_nat i := x]> l) i = Some x.
Proof.
  intros Hs. destruct (slot_Some _ _ _ Hs) as [Hi Hl]. unfold slot in *.
  destruct ((0 <=? i) && (i <? MAX_TASKS)); [| discriminate].
  apply list_lookup_insert_eq. eapply lookup_lt_Some; eauto.
Qed.

Lemma slot_insert_ne l i j x :
  0 <= i -> i <> j -> slot (<[Z.to_nat i := x]> l) j = slot l j.
Proof.
  intros Hi Hne. unfold slot.
  destruct (0 <=? j) eqn:E1; simpl; [| reflexivity].
  destruct (j <? MAX_TASKS); [| reflexivity].
  apply list_lookup_insert_ne. apply Z.leb_le in E1. lia.
Qed.

Lemma slot_insert l i j ti x :
  slot l i = Some ti ->
  slot (<[Z.to_nat i := x]> l) j = if decide (i = j) then Some x else slot l j.
Proof.
  intros Hs. destruct (decide (i = j)) as [<- | Hne].
  - eapply slot_insert_eq; eauto.
  - apply slot_insert_ne; [apply slot_Some in Hs; lia | assumption].
Qed.

(** ** One look at a slot *)

Lemma schedule_visit_spec t index m ti :
  slot (tasks m) index = Some ti ->
  schedule_visit t index m =
    if eligible t ti (env m)
    then Done true (chosen m index ti (env m))
    else Done false (with_env (probe_world ti (env m)) m).
Proof.
  intros Hs.
  unfold schedule_visit, bind, rd_task. rewrite Hs.
  unfold chosen, eligible, probe_world, picked.
  destruct (status ti =? ready) eqn:Eready.
  { apply Z.eqb_eq in Eready. rewrite !Eready.
    change (ready =? blocked_on_sleep) with false.
    change (ready =? blocked_on_input) with false.
    unfold wr_task, wr_current, ret. rewrite Hs. destruct m; reflexivity. }
  destruct (status ti =? blocked_on_sleep) eqn:Esleep.
  { apply Z.eqb_eq in Esleep. rewrite !Esleep.
    change (blocked_on_sleep =? blocked_on_input) with false.
    unfold call_time_ms; simpl.
    destruct (wake_time ti <=? (time_ms (env m)).1); unfold wr_task, wr_current, ret;
      simpl; [rewrite Hs |]; reflexivity. }
  destruct (status ti =? blocked_on_join) eqn:Ejoin.
  { apply Z.eqb_eq in Ejoin. rewrite !Ejoin.
    change (blocked_on_join =? blocked_on_input) with false.
    destruct (t =? join_thread ti); unfold wr_task, wr_current, ret;
      [rewrite Hs |]; destruct m; reflexivity. }
  destruct (status ti =? blocked_on_input) eqn:Einput.
  { unfold call_getch; simpl.
    destruct (negb ((getch (env m)).1 =? ERR)); unfold wr_task, wr_current, ret;
      simpl; [| reflexivity].
    rewrite Hs. simpl. erewrite slot_insert_eq by eassumption. simpl.
    rewrite list_insert_insert_eq. reflexivity. }
  unfold ret. destruct m; reflexivity.
Qed.

(** ** Ring arithmetic *)

Lemma ring_range t n k : 0 < n -> 0 <= ring t n k < n.
Proof. intros Hn. unfold ring. apply Z.mod_pos_bound. assumption. Qed.

Lemma ring_first t n : 0 <= t -> 0 < n -> Z.rem (t + 1) n = ring t n 0.
Proof.
  intros Ht Hn. unfold ring. rewrite Z.rem_mod_nonneg by lia.
  f_equal. lia.
Qed.

Lemma ring_succ t n k : 0 < n -> Z.rem (ring t n k + 1) n = ring t n (S k).
Proof.
  intros Hn. pose proof (ring_range t n k Hn) as Hr.
  rewrite Z.rem_mod_nonneg by lia. unfold ring.
  rewrite Zplus_mod_idemp_l. f_equal. lia.
Qed.

Lemma ring_self t n : 0 <= t < n -> ring t n (Z.to_nat (n - 1)) = t.
Proof.
  intros Ht. unfold ring.
  replace (t + 1 + Z.of_nat (Z.to_nat (n - 1))) with (t + 1 * n) by lia.
  rewrite Z_mod_plus_full. apply Z.mod_small. lia.
Qed.

(** ** The polling loop

    Started [k] slots after the caller, with the world as [k] passed-over
    slots leave it, the loop stops at the first slot at or after [k] that
    is eligible when it is looked at, and it has passed over every slot
    before; it never leaves the table. *)

Lemma schedule_loop_from t m :
  table_ok m -> 0 < num_tasks m <= MAX_TASKS ->
  forall fuel k,
    loop_post t m k fuel
      (schedule_loop fuel t (ring t (num_tasks m) k) (with_env (skipped t m k) m)).
Proof.
  intros Hok Hn. induction fuel as [| fuel IH]; intros k.
  - simpl. split; [intros j' Hj'; lia | f_equal; f_equal; lia].
  - pose proof (ring_range t (num_tasks m) k ltac:(lia)) as Hr.
    destruct (slot_in_range (tasks m) (ring t (num_tasks m) k) Hok ltac:(lia)) as [ti Hti].
    cbn [schedule_loop]. unfold bind at 1.
    rewrite (schedule_visit_spec t _ (with_env (skipped t m k) m) ti Hti).
    cbn [env with_env].
    destruct (eligible t ti (skipped t m k)) eqn:Eel.
    + simpl. exists k, ti. repeat split; try lia; try assumption; intros j' Hj'; lia.
    + unfold ring_next, bind, rd_num, call_sleep_ms, ret. cbn [num_tasks with_env].
      replace (num_tasks m =? 0) with false by (symmetry; apply Z.eqb_neq; lia).
      rewrite ring_succ by lia.
      cbn [with_env current_task num_tasks tasks brk env].
      specialize (IH (S k)).
      assert (Hw : with_env (skipped t m (S k)) m =
                   Machine (current_task m) (num_tasks m) (tasks m) (brk m)
                           (sleep_ms 1 (probe_world ti (skipped t m k)))).
      { unfold with_env. cbn [skipped]. rewrite Hti. reflexivity. }
      rewrite Hw in IH.
      destruct (schedule_loop fuel t (ring t (num_tasks m) (S k)) _) as [i m' | m' | m'];
        cbn [loop_post] in *.
      * destruct IH as (j & tj & Hj & Hi & Hsl & Hel & Hmiss & Hm').
        exists j, tj. repeat split; try lia; try assumption.
        intros j' Hj'. destruct (decide (j' = k)) as [-> | Hne].
        -- exists ti. split; assumption.
        -- apply Hmiss. lia.
      * destruct IH as [Hmiss Hm']. split.
        -- intros j' Hj'. destruct (decide (j' = k)) as [-> | Hne].
           ++ exists ti. split; assumption.
           ++ apply Hmiss. lia.
        -- rewrite Hm'. f_equal. f_equal. lia.
      * assumption.
Qed.

(** ** schedule *)

Lemma with_env_same m : with_env (env m) m = m.
Proof. destruct m; reflexivity. Qed.

Lemma schedule_spec t m fuel :
  table_ok m -> 0 <= t < MAX_TASKS -> 0 < num_tasks m <= MAX_TASKS ->
  schedule_post t m fuel (schedule fuel t m).
Proof.
  intros Hok Ht Hn.
  destruct (slot_in_range (tasks m) t Hok Ht) as [ti Hti].
  unfold schedule, bind at 1, rd_task. rewrite Hti.
  unfold bind at 1, ring_next, bind at 1, rd_num.
  replace (num_tasks m =? 0) with false by (symmetry; apply Z.eqb_neq; lia).
  unfold ret at 1. rewrite ring_first by lia.
  pose proof (schedule_loop_from t m Hok Hn fuel 0) as Hloop.
  cbn [skipped] in Hloop. rewrite with_env_same in Hloop.
  unfold bind at 1.
  destruct (schedule_loop fuel t (ring t (num_tasks m) 0) m) as [i m' | m' | m'];
    cbn [loop_post] in Hloop; [| exact Hloop | contradiction].
  destruct Hloop as (j & tj & Hj & Hi & Hsl & Hel & Hmiss & Hm').
  unfold bind, rd_current.
  assert (Hcur : current_task m' = i) by (rewrite Hm'; reflexivity).
  rewrite Hcur, Z.eqb_refl. unfold ret. cbn [schedule_post loop_post].
  split; [exists tt; reflexivity |]. rewrite Hcur.
  exists j, tj. repeat split; try lia; assumption.
Qed.

(** Whatever the state, every [break] of the loop has just written
    [current_task = index], so the test that follows the loop always
    takes the [return] branch. *)

Lemma schedule_visit_current t index m m' :
  schedule_visit t index m = Done true m' -> current_task m' = index.
Proof.
  destruct (slot (tasks m) index) as [ti |] eqn:Hs.
  - rewrite (schedule_visit_spec t index m ti Hs).
    destruct (eligible t ti (env m)); [| discriminate].
    intros [= <-]. reflexivity.
  - unfold schedule_visit, bind, rd_task. rewrite Hs. discriminate.
Qed.

Lemma schedule_loop_current fuel t : forall index m i m',
  schedule_loop fuel t index m = Done i m' -> current_task m' = i.
Proof.
  induction fuel as [| fuel IH]; intros index m i m'; [discriminate |].
  cbn [schedule_loop]. unfold bind at 1.
  destruct (schedule_visit t index m) as [[|] m1 | m1 | m1] eqn:Ev; try discriminate.
  - unfold ret. intros [= <- <-]. eapply schedule_visit_current; eauto.
  - unfold bind at 1.
    destruct (ring_next index m1) as [i1 m2 | m2 | m2]; try discriminate.
    unfold bind at 1, call_sleep_ms. apply IH.
Qed.

Lemma schedule_never_switches fuel t m saved target m' :
  schedule fuel t m <> Done (switched saved target) m'.
Proof.
  unfold schedule, bind at 1.
  destruct (rd_task t m) as [ti m1 | m1 | m1]; try discriminate.
  unfold bind at 1.
  destruct (ring_next t m1) as [i1 m2 | m2 | m2]; try discriminate.
  unfold bind at 1.
  destruct (schedule_loop fuel t i1 m2) as [i m3 | m3 | m3] eqn:El; try discriminate.
  apply schedule_loop_current in El.
  unfold bind, rd_current. rewrite El, Z.eqb_refl. discriminate.
Qed.

(** ** The public calls *)

Lemma wf_slot_current m :
  wf m -> exists tc, slot (tasks m) (current_task m) = Some tc.
Proof.
  intros (Hok & Hc & Hn). apply slot_in_range; [exact Hok | lia].
Qed.

Lemma park_table_ok o m : table_ok m -> table_ok (park o m).
Proof.
  unfold table_ok, park. intros Hok.
  destruct (slot (tasks m) (current_task m)); [| exact Hok].
  cbn [tasks]. rewrite length_insert. exact Hok.
Qed.

Lemma park_wf o m : wf m -> wf (park o m).
Proof.
  intros Hwf. pose proof Hwf as (Hok & Hc & Hn).
  split; [apply park_table_ok; exact Hok |].
  unfold park. destruct (slot (tasks m) (current_task m)); cbn; lia.
Qed.

Lemma park_current o m : current_task (park o m) = current_task m.
Proof. unfold park. destruct (slot (tasks m) (current_task m)); reflexivity. Qed.

Lemma park_num o m : num_tasks (park o m) = num_tasks m.
Proof. unfold park. destruct (slot (tasks m) (current_task m)); reflexivity. Qed.

Lemma task_wait_park fuel h m :
  wf m -> task_wait fuel h m = schedule fuel (current_task m) (park (Wait h) m).
Proof.
  intros Hwf. destruct (wf_slot_current m Hwf) as [tc Htc].
  unfold task_wait, park, bind, rd_current, wr_task. rewrite Htc.
  cbn [with_tasks tasks current_task].
  erewrite slot_insert_eq by eassumption.
  cbn [with_tasks tasks current_task num_tasks brk env].
  rewrite list_insert_insert_eq. reflexivity.
Qed.

Lemma task_sleep_park fuel ms m :
  wf m -> task_sleep fuel ms m = schedule fuel (current_task m) (park (Sleep ms) m).
Proof.
  intros Hwf. destruct (wf_slot_current m Hwf) as [tc Htc].
  unfold task_sleep, park, bind, rd_current, wr_task, call_time_ms. rewrite Htc.
  cbn [with_tasks with_env tasks current_task num_tasks brk env].
  erewrite slot_insert_eq by eassumption.
  cbn [with_tasks with_env tasks current_task num_tasks brk env].
  rewrite list_insert_insert_eq. reflexivity.
Qed.

Lemma task_exit_park fuel m :
  wf m -> task_exit fuel m = schedule fuel (current_task m) (park Exit m).
Proof.
  intros Hwf. destruct (wf_slot_current m Hwf) as [tc Htc].
  unfold task_exit, park, bind, rd_current, wr_task. rewrite Htc.
  reflexivity.
Qed.

Lemma task_readchar_park fuel m :
  wf m ->
  task_readchar fuel m =
    bind (schedule fuel (current_task m))
      (fun r =>
         match r with
         | returned _ =>
             bind rd_current (fun c => bind (rd_task c) (fun ti => ret (returned (input ti))))
         | switched saved target => ret (switched saved target)
         end) (park Readchar m).
Proof.
  intros Hwf. destruct (wf_slot_current m Hwf) as [tc Htc].
  unfold task_readchar, park, bind at 1, rd_current, bind at 1, wr_task. rewrite Htc.
  reflexivity.
Qed.

(** A yielding call is the caller's record parked, then one run of the
    polling loop from the slot after the caller. *)

Lemma chosen_slot_current m i ti w :
  slot (tasks m) i = Some ti ->
  slot (tasks (chosen m i ti w)) (current_task (chosen m i ti w)) = Some (picked ti w).
Proof. intros Hs. cbn. eapply slot_insert_eq; eauto. Qed.

Lemma step_yield fuel o m :
  wf m -> yields o = true ->
  yield_post (current_task m) (park o m) fuel (step fuel o m).
Proof.
  intros Hwf Hy.
  pose proof (park_wf o m Hwf) as (Hok & Hc & Hn).
  assert (Hsched : schedule_post (current_task m) (park o m) fuel
                     (schedule fuel (current_task m) (park o m))).
  { rewrite park_current in Hc. apply schedule_spec; [exact Hok | lia | lia]. }
  destruct o; try discriminate; cbn [step].
  - rewrite task_sleep_park by assumption.
    destruct (schedule fuel (current_task m) (park (Sleep ms) m)); cbn in *; tauto.
  - rewrite task_wait_park by assumption.
    destruct (schedule fuel (current_task m) (park (Wait handle) m)); cbn in *; tauto.
  - rewrite task_readchar_park by assumption. unfold bind at 1.
    destruct (schedule fuel (current_task m) (park Readchar m)) as [c m' | m' | m'];
      cbn in *; try tauto.
    destruct Hsched as [[[] ->] Hpost].
    destruct Hpost as (j & tj & Hj & Hi & Hsl & Hel & Hmiss & Hm').
    unfold bind, rd_current, rd_task.
    rewrite Hi in Hsl.
    assert (Hcur : slot (tasks m') (current_task m') = Some (picked tj (skipped (current_task m) (park Readchar m) j))).
    { rewrite Hm'. apply chosen_slot_current. rewrite <- Hi in Hsl. rewrite Hm' in Hsl.
      cbn [current_task chosen] in Hsl. exact Hsl. }
    rewrite Hcur. cbn. exists j, tj. rewrite <- Hi in Hsl. repeat split; try lia; assumption.
  - rewrite task_exit_park by assumption.
    destruct (schedule fuel (current_task m) (park Exit m)); cbn in *; tauto.
Qed.

(** ** task_create *)

Lemma task_create_spec fn m old :
  slot (tasks m) (num_tasks m) = Some old ->
  task_create fn m =
    Done (num_tasks m)
         (Machine (current_task m) (num_tasks m + 1)
                  (<[Z.to_nat (num_tasks m) := created fn (num_tasks m) (brk m) old]> (tasks m))
                  (S (S (brk m))) (env m)).
Proof.
  intros Hs. destruct (slot_Some _ _ _ Hs) as [Hr _].
  unfold task_create, bind at 1, rd_num, bind at 1.
  replace (num_tasks m =? INT_MAX) with false
    by (symmetry; apply Z.eqb_neq; unfold INT_MAX, MAX_TASKS in *; lia).
  unfold wr_num, bind, wr_task, malloc, ret.
  cbn [with_num with_tasks with_brk tasks current_task num_tasks brk env].
  rewrite Hs.
  cbn [with_num with_tasks with_brk tasks current_task num_tasks brk env].
  repeat (erewrite slot_insert_eq by eassumption;
          cbn [with_num with_tasks with_brk tasks current_task num_tasks brk env];
          rewrite list_insert_insert_eq).
  reflexivity.
Qed.

Lemma task_create_outside fn m :
  slot (tasks m) (num_tasks m) = None -> num_tasks m <> INT_MAX ->
  task_create fn m = Undefined (with_num (num_tasks m + 1) m).
Proof.
  intros Hs Hmax.
  unfold task_create, bind at 1, rd_num, bind at 1.
  replace (num_tasks m =? INT_MAX) with false by (symmetry; apply Z.eqb_neq; lia).
  unfold wr_num, bind, wr_task. cbn [with_num tasks]. rewrite Hs. reflexivity.
Qed.

(** ** Who is running *)

Lemma eligible_status t ti w :
  eligible t ti w = true ->
  status ti = ready \/ status ti = blocked_on_sleep \/
  status ti = blocked_on_join \/ status ti = blocked_on_input.
Proof.
  unfold eligible.
  destruct (Z.eqb_spec (status ti) ready); [tauto |].
  destruct (Z.eqb_spec (status ti) blocked_on_sleep); [tauto |].
  destruct (Z.eqb_spec (status ti) blocked_on_join); [tauto |].
  destruct (Z.eqb_spec (status ti) blocked_on_input); [tauto | discriminate].
Qed.

(** The key that a look consumes goes into the record it selects. *)

Lemma picked_input ti w :
  status ti = blocked_on_input -> input (picked ti w) = (getch w).1.
Proof. intros Hst. unfold picked. rewrite Hst. reflexivity. Qed.

Lemma picked_status ti w : status (picked ti w) = is_running.
Proof. unfold picked. destruct (status ti =? blocked_on_input); reflexivity. Qed.

Lemma parked_status o tc w :
  yields o = true -> status (parked o tc w) <> is_running.
Proof. destruct o; simpl; intros; discriminate. Qed.

Lemma slot_park o m tc j :
  slot (tasks m) (current_task m) = Some tc ->
  slot (tasks (park o m)) j =
    if decide (current_task m = j) then Some (parked o tc (env m)) else slot (tasks m) j.
Proof.
  intros Hs. unfold park. rewrite Hs. cbn [tasks]. eapply slot_insert; eauto.
Qed.

Lemma slot_chosen m i ti w j :
  slot (tasks m) i = Some ti ->
  slot (tasks (chosen m i ti w)) j =
    if decide (i = j) then Some (picked ti w) else slot (tasks m) j.
Proof. intros Hs. cbn [chosen tasks]. eapply slot_insert; eauto. Qed.

Lemma chosen_wf m i ti w :
  wf m -> 0 <= i < num_tasks m -> wf (chosen m i ti w).
Proof.
  intros (Hok & Hc & Hn) Hi. unfold wf, table_ok in *. cbn.
  rewrite length_insert. repeat split; lia || assumption.
Qed.

Lemma started_eq (w : world) :
  started w = with_tasks (<[0%nat := set_status is_running zero_task]> (tasks (boot w))) (boot w).
Proof. reflexivity. Qed.

Lemma started_wf (w : world) : wf (started w).
Proof. rewrite started_eq. unfold wf, table_ok. cbn. unfold MAX_TASKS. repeat split; lia. Qed.

Lemma started_sole_running (w : world) : sole_running (started w).
Proof.
  rewrite started_eq. intros j tj. cbn [with_tasks tasks current_task boot].
  change 0%nat with (Z.to_nat 0).
  rewrite (slot_insert _ 0 j zero_task) by reflexivity.
  destruct (decide (0 = j)) as [<- | Hne].
  - intros [= <-]. split; reflexivity || trivial.
  - intros Hs. apply slot_Some in Hs as [Hr Hl].
    apply lookup_replicate_1 in Hl as [-> _]. split; [discriminate | congruence].
Qed.

Lemma create_keeps m fn h m' :
  wf m -> sole_running m -> task_create fn m = Done h m' ->
  wf m' /\ sole_running m' /\ h = num_tasks m /\ num_tasks m' = num_tasks m + 1 /\
  current_task m' = current_task m.
Proof.
  intros Hwf Hsole Hc. pose proof Hwf as (Hok & Hcur & Hn).
  destruct (slot (tasks m) (num_tasks m)) as [old |] eqn:Hs.
  - rewrite (task_create_spec fn m old Hs) in Hc. injection Hc as <- <-.
    destruct (slot_Some _ _ _ Hs) as [Hr _].
    split; [| split; [| cbn; lia]].
    + unfold wf, table_ok in *. cbn. rewrite length_insert. repeat split; lia.
    + intros j tj. cbn [tasks current_task].
      rewrite (slot_insert _ _ j old) by assumption.
      destruct (decide (num_tasks m = j)) as [<- | Hne].
      * intros [= <-]. split; [discriminate | lia].
      * apply (Hsole j tj).
  - rewrite task_create_outside in Hc; [discriminate | assumption |].
    unfold INT_MAX, MAX_TASKS in *. lia.
Qed.

Lemma yield_keeps fuel o m m' :
  wf m -> sole_running m -> yields o = true -> step fuel o m = Done tt m' ->
  wf m' /\ sole_running m' /\ num_tasks m' = num_tasks m.
Proof.
  intros Hwf Hsole Hy Hstep.
  pose proof (step_yield fuel o m Hwf Hy) as Hpost. rewrite Hstep in Hpost.
  cbn [yield_post loop_post] in Hpost.
  destruct Hpost as (j & ti & Hj & Hi & Hsl & Hel & Hmiss & Hm').
  rewrite park_num in Hi.
  pose proof Hwf as (Hok & Hcur & Hn).
  pose proof (ring_range (current_task m) (num_tasks m) j ltac:(lia)) as Hr.
  rewrite <- Hi in Hr.
  destruct (wf_slot_current m Hwf) as [tc Htc].
  split; [| split].
  - rewrite Hm'. apply chosen_wf; [apply park_wf; assumption | rewrite park_num; lia].
  - intros j' tj'. rewrite Hm' at 1. rewrite (slot_chosen _ _ _ _ j' Hsl).
    destruct (decide (current_task m' = j')) as [<- | Hne].
    + intros [= <-]. split; [reflexivity | intros _; apply picked_status].
    + rewrite (slot_park o m tc j' Htc).
      destruct (decide (current_task m = j')) as [<- | Hne'].
      * intros [= <-]. split; [| congruence].
        intros Hrun. exfalso. eapply parked_status; eauto.
      * intros Hs'. split; [| congruence].
        intros Hrun. apply (Hsole j' tj' Hs') in Hrun. congruence.
  - rewrite Hm'. cbn. apply park_num.
Qed.

Lemma forget_Done {A} (o : outcome world A) m' :
  forget o = Done tt m' -> exists a, o = Done a m'.
Proof. destruct o; simpl; intros E; inversion E; eauto. Qed.

Lemma step_keeps fuel o m m' :
  wf m -> sole_running m -> step fuel o m = Done tt m' ->
  wf m' /\ sole_running m'.
Proof.
  intros Hwf Hsole Hstep. destruct (yields o) eqn:Hy.
  - destruct (yield_keeps fuel o m m' Hwf Hsole Hy Hstep) as (? & ? & ?). tauto.
  - destruct o; try discriminate. cbn [step] in Hstep.
    apply forget_Done in Hstep as [h Hc].
    destruct (create_keeps m fn h m' Hwf Hsole Hc) as (? & ? & ?). tauto.
Qed.

Lemma run_keeps fuel ops : forall m m',
  wf m -> sole_running m -> run fuel ops m = Done tt m' ->
  wf m' /\ sole_running m'.
Proof.
  induction ops as [| o ops IH]; intros m m' Hwf Hsole Hrun.
  - injection Hrun as <-. tauto.
  - cbn [run] in Hrun. unfold bind in Hrun.
    destruct (step fuel o m) as [[] m1 | m1 | m1] eqn:Hstep; try discriminate.
    destruct (step_keeps fuel o m m1 Hwf Hsole Hstep) as [Hwf1 Hsole1].
    eapply IH; eauto.
Qed.

(** C2.  After [scheduler_init], whenever a sequence of public calls
    ([task_create], [task_sleep], [task_wait], [task_readchar], the exit
    path) has completed, exactly one record of the table has status
    [is_running]. *)

Theorem exactly_one_running (w : world) (fuel : nat) (ops : list op) m :
  run fuel ops (started w) = Done tt m ->
  exists i, status_of m i = Some is_running /\
            forall j, status_of m j = Some is_running -> j = i.
Proof.
  intros Hrun.
  destruct (run_keeps fuel ops (started w) m (started_wf w) (started_sole_running w) Hrun)
    as [Hwf Hsole].
  destruct (wf_slot_current m Hwf) as [tc Htc].
  exists (current_task m). unfold status_of. split.
  - rewrite Htc. simpl. f_equal. apply (Hsole _ _ Htc). reflexivity.
  - intros j Hj. destruct (slot (tasks m) j) as [tj |] eqn:Hs; [| discriminate].
    injection Hj as Hj. apply (Hsole j tj Hs). exact Hj.
Qed.

(** C3 (as the code has it).  [task_create] has no capacity check and no
    error result.  While the table holds fewer than [MAX_TASKS] tasks a
    call returns the old [num_tasks] as handle, adds one to [num_tasks]
    and leaves the new slot [ready]; with [MAX_TASKS] tasks already in the
    table the call still adds one to [num_tasks], and only then reaches
    for [tasks[MAX_TASKS]], which is outside the array. *)

Theorem task_create_unchecked (fn : code) m :
  table_ok m ->
  (0 <= num_tasks m < MAX_TASKS ->
   exists m', task_create fn m = Done (num_tasks m) m' /\
              num_tasks m' = num_tasks m + 1 /\
              status_of m' (num_tasks m) = Some ready) /\
  (num_tasks m = MAX_TASKS ->
   task_create fn m = Undefined (with_num (MAX_TASKS + 1) m)).
Proof.
  intros Hok. split.
  - intros Hn. destruct (slot_in_range (tasks m) (num_tasks m) Hok Hn) as [old Hs].
    eexists. split; [apply (task_create_spec fn m old Hs) |].
    split; [reflexivity |]. unfold status_of. cbn [tasks].
    erewrite slot_insert_eq by eassumption. reflexivity.
  - intros Hn. rewrite task_create_outside.
    + rewrite Hn. reflexivity.
    + rewrite Hn. reflexivity.
    + rewrite Hn. discriminate.
Qed.

(** C5 (as the code has it).  [task_wait] does not look at its handle: for
    a handle that names no existing task the call raises nothing, neither
    at the call site nor in the scheduler; it records the handle as join
    target in the caller's record, leaves that record [blocked_on_join]
    and polls, and if the call comes back it is another task that was
    selected. *)

Theorem task_wait_unchecked (fuel : nat) (h : Z) m :
  wf m -> ~ (0 <= h < num_tasks m) ->
  (forall m', task_wait fuel h m <> Undefined m') /\
  (forall c m', task_wait fuel h m = Done c m' ->
     c = returned tt /\ current_task m' <> current_task m) /\
  exists tc, slot (tasks (final (task_wait fuel h m))) (current_task m) = Some tc /\
             status tc = blocked_on_join /\ join_thread tc = h.
Proof.
  intros Hwf Hh. pose proof Hwf as (Hok & Hc & Hn).
  destruct (wf_slot_current m Hwf) as [tc Htc].
  rewrite task_wait_park by assumption.
  pose proof (park_wf (Wait h) m Hwf) as (Hok' & Hc' & Hn').
  rewrite park_current in Hc'.
  pose proof (schedule_spec (current_task m) (park (Wait h) m) fuel Hok'
                ltac:(lia) ltac:(lia)) as Hpost.
  assert (Hparked : slot (tasks (park (Wait h) m)) (current_task m) =
                    Some (parked (Wait h) tc (env m))).
  { rewrite (slot_park _ m tc _ Htc). rewrite decide_True by reflexivity. reflexivity. }
  destruct (schedule fuel (current_task m) (park (Wait h) m)) as [c m' | m' | m'];
    cbn [schedule_post loop_post] in Hpost; [| | contradiction].
  - destruct Hpost as [[[] ->] (j & ti & Hj & Hi & Hsl & Hel & Hmiss & Hm')].
    assert (Hne : current_task m' <> current_task m).
    { intros Heq. rewrite Heq, Hparked in Hsl. injection Hsl as <-.
      unfold eligible in Hel. cbn in Hel. apply Z.eqb_eq in Hel. lia. }
    split; [discriminate |]. split.
    + intros c m'' [= <- <-]. split; [reflexivity | exact Hne].
    + exists (parked (Wait h) tc (env m)). cbn [final]. rewrite Hm' at 1.
      rewrite (slot_chosen _ _ _ _ _ Hsl). rewrite decide_False by exact Hne.
      split; [exact Hparked | split; reflexivity].
  - destruct Hpost as [Hmiss Hm']. split; [discriminate |]. split; [discriminate |].
    exists (parked (Wait h) tc (env m)). cbn [final]. rewrite Hm'. cbn [tasks with_env].
    split; [exact Hparked | split; reflexivity].
Qed.

Lemma hit_not_miss t m k : hit t m k -> miss t m k -> False.
Proof.
  intros (ti & Hs & He) (ti' & Hs' & He'). congruence.
Qed.

(** C6.  [schedule t] looks at the slots in ring order, starting at
    [(t + 1) mod num_tasks] and moving on by one modulo [num_tasks], the
    current count of tasks; it selects the first slot found eligible when
    looked at, whatever the kind of task, and no other: the call comes
    back having selected slot [(t + 1 + k) mod num_tasks] exactly when
    that slot is eligible at the [k]-th look and the [k] slots before it
    were each looked at and found not eligible. *)

Theorem schedule_ring_order (fuel : nat) (t : Z) m m' :
  table_ok m -> 0 <= t < MAX_TASKS -> 0 < num_tasks m <= MAX_TASKS ->
  (schedule fuel t m = Done (returned tt) m' <-> first_eligible fuel t m m').
Proof.
  intros Hok Ht Hn. unfold first_eligible.
  pose proof (schedule_spec t m fuel Hok Ht Hn) as Hpost.
  split.
  - intros Hs. rewrite Hs in Hpost. cbn [schedule_post loop_post] in Hpost.
    destruct Hpost as [_ (j & ti & Hj & Hi & Hsl & Hel & Hmiss & Hm')].
    exists j, ti. fold (ring t (num_tasks m) j). rewrite <- Hi.
    repeat split; try assumption; try lia.
    intros j' Hj'. apply Hmiss. lia.
  - intros (k & ti & Hk & Hsl & Hel & Hmiss & Hm').
    fold (ring t (num_tasks m) k) in Hsl, Hm'.
    assert (Hhit : hit t m k) by (exists ti; split; assumption).
    destruct (schedule fuel t m) as [c m1 | m1 | m1];
      cbn [schedule_post loop_post] in Hpost; [| | contradiction].
    + destruct Hpost as [[[] ->] (j & tj & Hj & Hi & Hsl' & Hel' & Hmiss' & Hm1)].
      assert (j = k) as ->.
      { destruct (lt_eq_lt_dec j k) as [[Hlt | Heq] | Hgt]; [| exact Heq |].
        - exfalso. apply (hit_not_miss t m j); [| apply Hmiss; exact Hlt].
          exists tj. rewrite <- Hi. split; assumption.
        - exfalso. apply (hit_not_miss t m k); [exact Hhit | apply Hmiss'; lia]. }
      rewrite Hi in Hsl'. rewrite Hsl in Hsl'. injection Hsl' as <-.
      rewrite Hm1, Hm', Hi. reflexivity.
    + destruct Hpost as [Hmiss' _]. exfalso.
      apply (hit_not_miss t m k); [exact Hhit | apply Hmiss'; lia].
Qed.

(** C9.  A task [c] that calls [task_wait c] on its own handle records
    itself as join target, with status [blocked_on_join], and enters
    [schedule c].  Its own slot is the last of the round that starts
    after it, and a look at that slot always selects it, because the
    caller of [schedule] is then the recorded join target.  So the call
    comes back to its caller after at most [num_tasks] looks, whatever
    fuel beyond that it is given: it has selected the first slot found
    eligible in the round; when the scan passes over every other slot and
    reaches the caller's own, the caller is the one selected, [is_running]
    again; and when another task is taken before, the caller's record
    stays [blocked_on_join] on itself. *)

Theorem self_join_returns (fuel : nat) m :
  wf m -> (Z.to_nat (num_tasks m) <= fuel)%nat ->
  exists tc m' k ti,
    slot (tasks m) (current_task m) = Some tc /\
    park (Wait (current_task m)) m =
      with_tasks (<[Z.to_nat (current_task m) :=
                     set_join_thread (current_task m) (set_status blocked_on_join tc)]>
                    (tasks m)) m /\
    task_wait fuel (current_task m) m =
      schedule fuel (current_task m) (park (Wait (current_task m)) m) /\
    task_wait fuel (current_task m) m = Done (returned tt) m' /\
    (k < Z.to_nat (num_tasks m))%nat /\
    slot (tasks (park (Wait (current_task m)) m))
         (ring (current_task m) (num_tasks m) k) = Some ti /\
    eligible (current_task m) ti
             (skipped (current_task m) (park (Wait (current_task m)) m) k) = true /\
    (forall j, (j < k)%nat -> miss (current_task m) (park (Wait (current_task m)) m) j) /\
    m' = chosen (park (Wait (current_task m)) m)
                (ring (current_task m) (num_tasks m) k) ti
                (skipped (current_task m) (park (Wait (current_task m)) m) k) /\
    ring (current_task m) (num_tasks m) (Z.to_nat (num_tasks m) - 1) = current_task m /\
    join_thread <$> slot (tasks m') (current_task m) = Some (current_task m) /\
    ((forall j, (j < Z.to_nat (num_tasks m) - 1)%nat ->
                miss (current_task m) (park (Wait (current_task m)) m) j) ->
     k = (Z.to_nat (num_tasks m) - 1)%nat /\
     current_task m' = current_task m /\
     status_of m' (current_task m) = Some is_running) /\
    (current_task m' <> current_task m ->
     status_of m' (current_task m) = Some blocked_on_join).
Proof.
  intros Hwf Hfuel. pose proof Hwf as (Hok & Hc & Hn).
  destruct (wf_slot_current m Hwf) as [tc Htc].
  set (c := current_task m) in *. set (n := num_tasks m) in *.
  set (p := park (Wait c) m).
  assert (Hp : p = with_tasks (<[Z.to_nat c :=
                 set_join_thread c (set_status blocked_on_join tc)]> (tasks m)) m).
  { unfold p, park. fold c. rewrite Htc. reflexivity. }
  assert (Hcall : task_wait fuel c m = schedule fuel c p)
    by (apply task_wait_park; exact Hwf).
  pose proof (park_wf (Wait c) m Hwf) as (Hok' & Hc' & Hn'). fold p in Hok', Hc', Hn'.
  assert (Hnum : num_tasks p = n) by apply park_num.
  assert (Hparked : slot (tasks p) c =
                    Some (set_join_thread c (set_status blocked_on_join tc))).
  { unfold p. rewrite (slot_park _ m tc _ Htc). fold c.
    rewrite decide_True by reflexivity. reflexivity. }
  assert (Hself : ring c n (Z.to_nat n - 1) = c).
  { replace (Z.to_nat n - 1)%nat with (Z.to_nat (n - 1)) by lia. apply ring_self. lia. }
  assert (Hhit : hit c p (Z.to_nat n - 1)).
  { exists (set_join_thread c (set_status blocked_on_join tc)).
    rewrite Hnum, Hself. split; [exact Hparked |].
    unfold eligible. cbn. apply Z.eqb_refl. }
  assert (Hcm : 0 <= c < MAX_TASKS) by lia.
  assert (Hpos : 0 < num_tasks p <= MAX_TASKS) by lia.
  pose proof (schedule_spec c p fuel Hok' Hcm Hpos) as Hpost.
  rewrite <- Hcall in Hpost.
  destruct (task_wait fuel c m) as [r m' | m' | m'];
    cbn [schedule_post loop_post] in Hpost; [| | contradiction].
  - destruct Hpost as [[[] ->] (j & ti & Hj & Hi & Hsl & Hel & Hmiss & Hm')].
    rewrite Hnum in Hi. rewrite Hi in Hsl, Hm'.
    assert (Hjn : (j <= Z.to_nat n - 1)%nat).
    { destruct (le_lt_dec j (Z.to_nat n - 1)) as [Hle | Hgt]; [exact Hle |].
      exfalso. apply (hit_not_miss _ _ _ Hhit). apply Hmiss. lia. }
    assert (Hslot : slot (tasks m') c =
                    if decide (ring c n j = c)
                    then Some (picked ti (skipped c p j)) else slot (tasks p) c).
    { rewrite Hm' at 1. apply slot_chosen. exact Hsl. }
    exists tc, m', j, ti.
    split; [exact Htc |]. split; [exact Hp |]. split; [exact Hcall |].
    split; [reflexivity |]. split; [lia |]. split; [exact Hsl |].
    split; [exact Hel |]. split; [intros j' Hj'; apply Hmiss; lia |].
    split; [exact Hm' |]. split; [exact Hself |]. split; [| split].
    + rewrite Hslot. destruct (decide (ring c n j = c)) as [Heq | Hne].
      * rewrite Heq, Hparked in Hsl. injection Hsl as <-. cbn. reflexivity.
      * rewrite Hparked. reflexivity.
    + intros Hall.
      assert (Hjeq : j = (Z.to_nat n - 1)%nat).
      { destruct (le_lt_eq_dec _ _ Hjn) as [Hlt | Heq]; [| exact Heq].
        exfalso. apply (hit_not_miss c p j); [| apply Hall; exact Hlt].
        exists ti. rewrite Hnum. split; assumption. }
      split; [exact Hjeq |]. rewrite Hi, Hjeq, Hself. split; [reflexivity |].
      unfold status_of. rewrite Hslot, Hjeq, Hself.
      rewrite decide_True by reflexivity. cbn. f_equal. apply picked_status.
    + intros Hne. rewrite Hi in Hne. unfold status_of. rewrite Hslot.
      rewrite decide_False by exact Hne. rewrite Hparked. reflexivity.
  - exfalso. destruct Hpost as [Hmiss _].
    apply (hit_not_miss _ _ _ Hhit). apply Hmiss. lia.
Qed.

(** ** Joining a task that has exited *)






(** C10 (as the code has it).  A task that calls [task_wait h] on a task
    [h] that has already exited is never selected again: whatever calls
    follow, in every state the scheduler reaches (between calls, or in
    the middle of its polling loop) the caller's record is still
    [blocked_on_join] on [h], and no call ever comes back with the caller
    as current task.  The join condition needs [h] to call [schedule],
    which an exited task no longer does. *)


(** ** Sleeping and the clock *)

Section Clock.

Context {laws : ClockLaws world}.

Lemma probe_world_clock ti (w : world) : clock w <= clock (probe_world ti w).
Proof.
  unfold probe_world, clock.
  destruct (status ti =? blocked_on_sleep); [apply clock_time_ms |].
  destruct (status ti =? blocked_on_input); [apply clock_getch | lia].
Qed.

Lemma parked_world_clock o (w : world) : clock w <= clock (parked_world o w).
Proof.
  unfold clock. destruct o; cbn [parked_world]; try lia. apply clock_time_ms.
Qed.

Lemma skipped_clock t m k :
  table_ok m -> 0 < num_tasks m <= MAX_TASKS ->
  clock (env m) + Z.of_nat k <= clock (skipped t m k).
Proof.
  intros Hok Hn. induction k as [| k IH]; [cbn; lia |].
  pose proof (ring_range t (num_tasks m) k ltac:(lia)) as Hr.
  destruct (slot_in_range (tasks m) (ring t (num_tasks m) k) Hok ltac:(lia)) as [ti Hti].
  cbn [skipped]. rewrite Hti.
  pose proof (probe_world_clock ti (skipped t m k)) as Hp.
  pose proof (clock_sleep_ms 1 (probe_world ti (skipped t m k)) ltac:(lia)) as Hs.
  unfold clock in *. lia.
Qed.

Lemma park_env o m : wf m -> env (park o m) = parked_world o (env m).
Proof.
  intros Hwf. destruct (wf_slot_current m Hwf) as [tc Htc].
  unfold park. rewrite Htc. reflexivity.
Qed.

Lemma create_wf fn m h m' :
  wf m -> task_create fn m = Done h m' -> wf m' /\ env m' = env m.
Proof.
  intros (Hok & Hc & Hn) Hcr.
  destruct (slot (tasks m) (num_tasks m)) as [old |] eqn:Hs.
  - rewrite (task_create_spec fn m old Hs) in Hcr. injection Hcr as <- <-.
    destruct (slot_Some _ _ _ Hs) as [Hr _].
    unfold wf, table_ok in *. cbn. rewrite length_insert. repeat split; lia.
  - rewrite task_create_outside in Hcr; [discriminate | assumption |].
    unfold INT_MAX, MAX_TASKS in *. lia.
Qed.

Lemma step_clock fuel o m :
  wf m ->
  clock (env m) <= clock (env (final (step fuel o m))) /\
  forall m1, step fuel o m = Done tt m1 -> wf m1.
Proof.
  intros Hwf. destruct (yields o) eqn:Hy.
  - pose proof (step_yield fuel o m Hwf Hy) as Hpost.
    pose proof (park_wf o m Hwf) as Hwf'. pose proof Hwf' as (Hok' & Hc' & Hn').
    assert (Hpos : 0 < num_tasks (park o m) <= MAX_TASKS) by lia.
    pose proof (parked_world_clock o (env m)) as Hpw.
    rewrite <- (park_env o m Hwf) in Hpw.
    destruct (step fuel o m) as [[] m1 | m1 | m1]; cbn [yield_post loop_post] in Hpost;
      [| | contradiction].
    + destruct Hpost as (j & ti & Hj & Hi & Hsl & Hel & Hmiss & Hm1).
      pose proof (ring_range (current_task m) (num_tasks (park o m)) j (proj1 Hpos)) as Hr.
      rewrite <- Hi in Hr.
      pose proof (skipped_clock (current_task m) (park o m) j Hok' Hpos) as Hsk.
      pose proof (probe_world_clock ti (skipped (current_task m) (park o m) j)) as Hp.
      split.
      * cbn [final]. rewrite Hm1. cbn [chosen env]. lia.
      * intros m1' [= <-]. rewrite Hm1. apply chosen_wf; [exact Hwf' | lia].
    + destruct Hpost as [_ ->]. split; [| discriminate]. cbn [final with_env env].
      pose proof (skipped_clock (current_task m) (park o m) (0 + fuel) Hok' Hpos). lia.
  - destruct o; try discriminate. cbn [step].
    destruct (task_create fn m) as [h m1 | m1 | m1] eqn:Hc.
    + destruct (create_wf fn m h m1 Hwf Hc) as [Hwf1 He]. cbn. rewrite He.
      split; [lia |]. intros ? [= <-]. exact Hwf1.
    + exfalso. pose proof Hwf as (Hok & Hcur & Hn).
      destruct (slot (tasks m) (num_tasks m)) as [old |] eqn:Hs.
      * rewrite (task_create_spec fn m old Hs) in Hc. discriminate.
      * rewrite task_create_outside in Hc; [discriminate | assumption |].
        unfold INT_MAX, MAX_TASKS in *. lia.
    + split; [| discriminate]. pose proof Hwf as (Hok & Hcur & Hn).
      destruct (slot (tasks m) (num_tasks m)) as [old |] eqn:Hs.
      * rewrite (task_create_spec fn m old Hs) in Hc. discriminate.
      * rewrite task_create_outside in Hc; [| assumption |].
        -- injection Hc as <-. cbn. lia.
        -- unfold INT_MAX, MAX_TASKS in *. lia.
Qed.

Lemma run_clock fuel ops : forall m,
  wf m -> clock (env m) <= clock (env (final (run fuel ops m))).
Proof.
  induction ops as [| o ops IH]; intros m Hwf; [cbn; lia |].
  cbn [run]. unfold bind.
  destruct (step_clock fuel o m Hwf) as [Hc Hw].
  destruct (step fuel o m) as [[] m1 | m1 | m1]; cbn [final] in *; try exact Hc.
  specialize (IH m1 (Hw m1 eq_refl)). lia.
Qed.

Lemma asleep_record_frame s D m m' :
  slot (tasks m') s = slot (tasks m) s -> asleep_record s D m -> asleep_record s D m'.
Proof. intros Hs (ts & H1 & H2). exists ts. rewrite Hs. tauto. Qed.

Lemma eligible_asleep t ts (w : world) :
  status ts = blocked_on_sleep -> eligible t ts w = (wake_time ts <=? clock w).
Proof. intros Hst. unfold eligible. rewrite Hst. reflexivity. Qed.

(** A sleeper stays as it is through any call of another task, unless the
    call selects it, and then the clock has reached its deadline. *)

Lemma step_asleep fuel o s D m :
  asleep s D m ->
  match step fuel o m with
  | Done _ m1 =>
      asleep s D m1 \/ (current_task m1 = s /\ D <= clock (env m1))
  | Spin m1 | Undefined m1 => asleep_record s D m1
  end.
Proof.
  intros (Hwf & Hrec & Hs & Hcs). pose proof Hwf as (Hok & Hc & Hn).
  destruct (yields o) eqn:Hy.
  - pose proof (step_yield fuel o m Hwf Hy) as Hpost.
    destruct (wf_slot_current m Hwf) as [tc Htc].
    pose proof (park_wf o m Hwf) as Hwf'. pose proof Hwf' as (Hok' & Hc' & Hn').
    assert (Hpos : 0 < num_tasks (park o m) <= MAX_TASKS) by lia.
    assert (Hrec' : asleep_record s D (park o m)).
    { eapply asleep_record_frame; [| exact Hrec].
      rewrite (slot_park o m tc _ Htc). apply decide_False. exact Hcs. }
    destruct (step fuel o m) as [[] m1 | m1 | m1]; cbn [yield_post loop_post] in Hpost;
      [| | contradiction].
    + destruct Hpost as (j & ti & Hj & Hi & Hsl & Hel & Hmiss & Hm1).
      pose proof (ring_range (current_task m) (num_tasks (park o m)) j (proj1 Hpos)) as Hr.
      rewrite <- Hi in Hr.
      destruct (decide (current_task m1 = s)) as [Heq | Hne].
      * right. split; [exact Heq |].
        destruct Hrec' as (ts & Hts & Hst & Hwk).
        rewrite Heq, Hts in Hsl. injection Hsl as <-.
        rewrite (eligible_asleep _ _ _ Hst) in Hel. apply Z.leb_le in Hel.
        pose proof (probe_world_clock ts (skipped (current_task m) (park o m) j)) as Hp.
        rewrite Hm1. cbn [chosen env]. lia.
      * left. split; [| split; [| split]].
        -- rewrite Hm1. apply chosen_wf; [exact Hwf' | lia].
        -- eapply asleep_record_frame; [| exact Hrec'].
           rewrite Hm1 at 1. rewrite (slot_chosen _ _ _ _ _ Hsl).
           apply decide_False. exact Hne.
        -- rewrite Hm1. cbn [chosen num_tasks]. rewrite park_num. exact Hs.
        -- exact Hne.
    + destruct Hpost as [_ ->]. exact Hrec'.
  - destruct o; try discriminate. cbn [step].
    destruct (slot (tasks m) (num_tasks m)) as [old |] eqn:Hsl.
    + rewrite (task_create_spec fn m old Hsl). cbn [forget]. left.
      destruct (slot_Some _ _ _ Hsl) as [Hr _].
      split; [| split; [| cbn; lia]].
      * unfold wf, table_ok in *. cbn. rewrite length_insert. repeat split; lia.
      * eapply asleep_record_frame; [| exact Hrec]. cbn [tasks].
        apply slot_insert_ne; lia.
    + rewrite task_create_outside; [exact Hrec | exact Hsl |].
      unfold INT_MAX, MAX_TASKS in *. lia.
Qed.

Lemma run_asleep fuel s D ops : forall m,
  asleep s D m ->
  (asleep_record s D (final (run fuel ops m)) /\
   forall m', run fuel ops m = Done tt m' -> current_task m' <> s) \/
  D <= clock (env (final (run fuel ops m))).
Proof.
  induction ops as [| o ops IH]; intros m Has.
  - left. cbn. split; [apply Has |]. intros m' [= <-]. apply Has.
  - cbn [run]. unfold bind.
    pose proof (step_asleep fuel o s D m Has) as Hstep.
    destruct (step_clock fuel o m ltac:(apply Has)) as [_ Hwf1].
    destruct (step fuel o m) as [[] m1 | m1 | m1].
    + destruct Hstep as [Has1 | [_ Hd]].
      * apply IH. exact Has1.
      * right. pose proof (run_clock fuel ops m1 (Hwf1 m1 eq_refl)). lia.
    + left. split; [exact Hstep | discriminate].
    + left. split; [exact Hstep | discriminate].
Qed.

Lemma ring_ring c n j k :
  0 < n -> (j < k)%nat -> ring (ring c n j) n (k - 1 - j) = ring c n k.
Proof.
  intros Hn Hjk. unfold ring. rewrite <- Z.add_assoc, Zplus_mod_idemp_l.
  f_equal. lia.
Qed.

Lemma ring_reaches c s n :
  0 <= c < n -> 0 <= s < n -> c <> s ->
  exists k, (k < Z.to_nat n - 1)%nat /\ ring c n k = s.
Proof.
  intros Hc Hs Hne.
  pose proof (Z.mod_pos_bound (s - c - 1) n ltac:(lia)) as Hb.
  assert (Hring : ring c n (Z.to_nat ((s - c - 1) mod n)) = s).
  { unfold ring. rewrite Z2Nat.id by lia. rewrite Zplus_mod_idemp_r.
    replace (c + 1 + (s - c - 1)) with s by lia. apply Z.mod_small. lia. }
  exists (Z.to_nat ((s - c - 1) mod n)). split; [| exact Hring].
  destruct (decide ((s - c - 1) mod n = n - 1)) as [Heq | Hneq]; [| lia].
  exfalso. rewrite Heq, ring_self in Hring by lia. contradiction.
Qed.

(** Once the clock has reached the deadline, a sleeper that lies [k]
    slots after the current task is selected within [k + 1] yields. *)

Lemma wake_within fuel s D : forall k m ys,
  asleep s D m -> D <= clock (env m) ->
  (k < Z.to_nat (num_tasks m))%nat ->
  ring (current_task m) (num_tasks m) k = s ->
  Forall (fun o => yields o = true) ys -> (k < length ys)%nat ->
  (Z.to_nat (num_tasks m) <= fuel)%nat ->
  exists ys1 ys2 m',
    ys = ys1 ++ ys2 /\ run fuel ys1 m = Done tt m' /\ current_task m' = s.
Proof.
  induction k as [k IH] using lt_wf_ind.
  intros m ys Has Hd Hkn Hring Hys Hlen Hfuel.
  destruct ys as [| o ys']; [cbn in Hlen; lia |].
  inversion Hys as [| ? ? Hy Hys']; subst.
  pose proof Has as (Hwf & Hrec & Hs & Hcs). pose proof Hwf as (Hok & Hc & Hn).
  pose proof (step_yield fuel o m Hwf Hy) as Hpost.
  pose proof (step_asleep fuel o (ring (current_task m) (num_tasks m) k) D m Has) as Hstep.
  destruct (step_clock fuel o m Hwf) as [Hclk _].
  destruct (wf_slot_current m Hwf) as [tc Htc].
  pose proof (park_wf o m Hwf) as Hwf'. pose proof Hwf' as (Hok' & Hc' & Hn').
  assert (Hpos : 0 < num_tasks (park o m) <= MAX_TASKS) by lia.
  assert (Hhit : hit (current_task m) (park o m) k).
  { destruct Hrec as (ts & Hts & Hst & Hwk). exists ts. rewrite park_num. split.
    - rewrite (slot_park o m tc _ Htc). rewrite decide_False by exact Hcs. exact Hts.
    - rewrite (eligible_asleep _ _ _ Hst). apply Z.leb_le.
      pose proof (skipped_clock (current_task m) (park o m) k Hok' Hpos) as Hsk.
      pose proof (parked_world_clock o (env m)) as Hpw.
      rewrite <- (park_env o m Hwf) in Hpw. lia. }
  destruct (step fuel o m) as [[] m1 | m1 | m1] eqn:Est;
    cbn [yield_post loop_post] in Hpost; [| | contradiction].
  - destruct Hpost as (j & ti & Hj & Hi & Hsl & Hel & Hmiss & Hm1).
    rewrite park_num in Hi.
    destruct (decide (current_task m1 = ring (current_task m) (num_tasks m) k))
      as [Heq | Hne].
    + exists [o], ys', m1. split; [reflexivity |]. split; [| exact Heq].
      cbn [run]. unfold bind. rewrite Est. reflexivity.
    + destruct Hstep as [Has1 | [Heq _]]; [| contradiction].
      assert (Hjk : (j < k)%nat).
      { destruct (lt_eq_lt_dec j k) as [[Hlt | Heq] | Hgt]; [exact Hlt | |].
        - exfalso. apply Hne. rewrite Hi, Heq. reflexivity.
        - exfalso. apply (hit_not_miss _ _ _ Hhit). apply Hmiss. lia. }
      assert (Hnum : num_tasks m1 = num_tasks m) by (rewrite Hm1; cbn; apply park_num).
      destruct (IH (k - 1 - j)%nat ltac:(lia) m1 ys') as (ys1 & ys2 & m' & Hys12 & Hrun & Hcur).
      * exact Has1.
      * cbn [final] in Hclk. lia.
      * rewrite Hnum. lia.
      * rewrite Hnum, Hi. apply ring_ring; lia.
      * exact Hys'.
      * cbn in Hlen. lia.
      * rewrite Hnum. exact Hfuel.
      * exists (o :: ys1), ys2, m'. split; [rewrite Hys12; reflexivity |].
        split; [| exact Hcur].
        cbn [run]. unfold bind. rewrite Est. exact Hrun.
  - exfalso. destruct Hpost as [Hmiss _].
    apply (hit_not_miss _ _ _ Hhit). apply Hmiss. lia.
Qed.

Lemma picked_wake_time ti (w : world) : wake_time (picked ti w) = wake_time ti.
Proof. unfold picked. destruct (status ti =? blocked_on_input); reflexivity. Qed.

Lemma slot_park_current o m tc :
  slot (tasks m) (current_task m) = Some tc ->
  slot (tasks (park o m)) (current_task m) = Some (parked o tc (env m)).
Proof. intros Htc. rewrite (slot_park o m tc _ Htc). apply decide_True. reflexivity. Qed.

Lemma sleep_call_post fuel d m :
  wf m ->
  match task_sleep fuel d m with
  | Done r m1 =>
      r = returned tt /\
      asleep_record_or_running m1
        (current_task m) (size_add (clock (env m)) d) /\
      (asleep (current_task m) (size_add (clock (env m)) d) m1 \/
       (current_task m1 = current_task m /\ size_add (clock (env m)) d <= clock (env m1)))
  | Spin m1 => asleep_record (current_task m) (size_add (clock (env m)) d) m1
  | Undefined _ => False
  end.
Proof.
  intros Hwf. pose proof Hwf as (Hok & Hc & Hn).
  destruct (wf_slot_current m Hwf) as [tc Htc].
  rewrite task_sleep_park by assumption.
  set (o := Sleep d). set (D := size_add (clock (env m)) d).
  pose proof (park_wf o m Hwf) as Hwf'. pose proof Hwf' as (Hok' & Hc' & Hn').
  assert (Hpos : 0 < num_tasks (park o m) <= MAX_TASKS) by lia.
  assert (Hrec : asleep_record (current_task m) D (park o m)).
  { exists (parked o tc (env m)). split; [apply slot_park_current; exact Htc |].
    split; reflexivity. }
  pose proof (schedule_spec (current_task m) (park o m) fuel Hok') as Hpost.
  rewrite park_current in Hc'. rewrite park_num in Hc'.
  specialize (Hpost ltac:(lia) Hpos).
  destruct (schedule fuel (current_task m) (park o m)) as [r m1 | m1 | m1];
    cbn [schedule_post loop_post] in Hpost; [| | contradiction].
  - destruct Hpost as [[[] ->] (j & ti & Hj & Hi & Hsl & Hel & Hmiss & Hm1)].
    split; [reflexivity |].
    pose proof (ring_range (current_task m) (num_tasks (park o m)) j (proj1 Hpos)) as Hr.
    rewrite <- Hi in Hr.
    destruct Hrec as (ts & Hts & Hst & Hwk).
    destruct (decide (current_task m1 = current_task m)) as [Heq | Hne].
    + rewrite Heq, Hts in Hsl. injection Hsl as <-. split.
      * exists (picked ts (skipped (current_task m) (park o m) j)).
        rewrite Hm1 at 1. rewrite Heq. rewrite (slot_chosen _ _ _ _ _ Hts).
        rewrite decide_True by reflexivity. split; [reflexivity |].
        split; [right; apply picked_status | rewrite picked_wake_time; exact Hwk].
      * right. split; [exact Heq |].
        rewrite (eligible_asleep _ _ _ Hst) in Hel. apply Z.leb_le in Hel.
        pose proof (probe_world_clock ts (skipped (current_task m) (park o m) j)) as Hp.
        rewrite Hm1. cbn [chosen env]. lia.
    + assert (Hrec1 : asleep_record (current_task m) D m1).
      { exists ts. rewrite Hm1 at 1. rewrite (slot_chosen _ _ _ _ _ Hsl).
        rewrite decide_False by exact Hne. tauto. }
      split.
      * destruct Hrec1 as (ts1 & H1 & H2 & H3). exists ts1. tauto.
      * left. split; [| split; [exact Hrec1 | split; [| exact Hne]]].
        -- rewrite Hm1. apply chosen_wf; [exact Hwf' | lia].
        -- rewrite Hm1. cbn [chosen num_tasks]. rewrite park_num. lia.
  - destruct Hpost as [_ ->]. exact Hrec.
Qed.

Lemma size_add_le a b : 0 <= a + b -> size_add a b <= a + b.
Proof.
  intros Hab. unfold size_add. apply Z.mod_le; [exact Hab | reflexivity].
Qed.

(** The sleeper's own call does not poll for ever: each look that finds
    nothing pauses a millisecond, so after [d] looks the deadline has come
    and the next look at the caller's own slot selects it. *)

Lemma sleep_call_returns fuel d m :
  wf m -> 0 <= d ->
  (Z.to_nat d + Z.to_nat (num_tasks m) <= fuel)%nat ->
  exists m1, task_sleep fuel d m = Done (returned tt) m1.
Proof.
  intros Hwf Hd Hfuel. pose proof Hwf as (Hok & Hc & Hn).
  destruct (wf_slot_current m Hwf) as [tc Htc].
  pose proof (sleep_call_post fuel d m Hwf) as Hpost.
  rewrite task_sleep_park in * by assumption.
  set (o := Sleep d) in *. set (n := num_tasks m) in *.
  pose proof (park_wf o m Hwf) as Hwf'. pose proof Hwf' as (Hok' & Hc' & Hn').
  assert (Hpos : 0 < num_tasks (park o m) <= MAX_TASKS) by lia.
  pose proof (schedule_spec (current_task m) (park o m) fuel Hok') as Hsched.
  rewrite park_current, park_num in Hc'.
  specialize (Hsched ltac:(lia) Hpos).
  destruct (schedule fuel (current_task m) (park o m)) as [r m1 | m1 | m1];
    [| | contradiction].
  - destruct Hpost as [-> _]. exists m1. reflexivity.
  - exfalso. cbn [schedule_post loop_post] in Hsched. destruct Hsched as [Hmiss _].
    set (jz := n * (d / n + 1) - 1).
    assert (Hjz : d <= jz <= d + n - 1).
    { pose proof (Z.mod_pos_bound d n ltac:(lia)) as Hm.
      pose proof (Z.div_mod d n ltac:(lia)) as Hdm. unfold jz. nia. }
    destruct (Hmiss (Z.to_nat jz) ltac:(lia)) as (ti & Hsl & Hel).
    rewrite park_num in Hsl. fold n in Hsl.
    assert (Hring : ring (current_task m) n (Z.to_nat jz) = current_task m).
    { unfold ring. rewrite Z2Nat.id by lia. unfold jz.
      replace (current_task m + 1 + (n * (d / n + 1) - 1))
        with (current_task m + (d / n + 1) * n) by lia.
      rewrite Z_mod_plus_full. apply Z.mod_small. fold n in Hc. lia. }
    rewrite Hring, (slot_park_current o m tc Htc) in Hsl. injection Hsl as <-.
    unfold eligible in Hel. cbn [status wake_time set_wake_time set_status] in Hel.
    change (blocked_on_sleep =? ready) with false in Hel.
    rewrite Z.eqb_refl in Hel. apply Z.leb_gt in Hel.
    pose proof (skipped_clock (current_task m) (park o m) (Z.to_nat jz) Hok' Hpos) as Hsk.
    pose proof (parked_world_clock o (env m)) as Hpw.
    rewrite <- (park_env o m Hwf) in Hpw.
    pose proof (clock_nonneg (env m)) as Hnn.
    assert (Hsz : size_add (time_ms (env m)).1 d <= (time_ms (env m)).1 + d)
      by (apply size_add_le; lia).
    unfold clock in *. lia.
Qed.

(** C8 (as the code has it).  A task that calls [task_sleep d] when the
    clock reads [start] has [start + d] computed in [size_t] recorded as
    its wake time: that is [(start + d) mod 2^64], which is [start + d]
    whenever the sum is below 2^64.  It is not selected again while the
    clock reads less than that recorded deadline: as long as it does, the
    record stays [blocked_on_sleep] and no call comes back with the
    sleeper as current task.  And it is selected again once the recorded
    deadline has come: its own call comes back after at most [d] pauses
    and one round of the ring, and from any later state in which it is
    still asleep and the clock has reached the deadline, the scheduler
    selects it within [num_tasks - 1] further yields. *)

Theorem sleep_until_deadline (fuel : nat) (d : Z) m :
  wf m -> 0 <= d ->
  (clock (env m) + d < SIZE_MOD ->
   size_add (clock (env m)) d = clock (env m) + d) /\
  (exists ts, slot (tasks (final (task_sleep fuel d m))) (current_task m) = Some ts /\
              wake_time ts = size_add (clock (env m)) d) /\
  (forall ops,
     clock (env (final (run fuel (Sleep d :: ops) m))) < size_add (clock (env m)) d ->
     status_of (final (run fuel (Sleep d :: ops) m)) (current_task m)
       = Some blocked_on_sleep /\
     forall m', run fuel (Sleep d :: ops) m = Done tt m' ->
                current_task m' <> current_task m) /\
  ((Z.to_nat d + Z.to_nat (num_tasks m) <= fuel)%nat ->
   exists m1, task_sleep fuel d m = Done (returned tt) m1 /\
     (current_task m1 = current_task m \/
      asleep (current_task m) (size_add (clock (env m)) d) m1)) /\
  (forall m2 fuel2 ys,
     asleep (current_task m) (size_add (clock (env m)) d) m2 ->
     size_add (clock (env m)) d <= clock (env m2) ->
     Forall (fun o => yields o = true) ys ->
     (Z.to_nat (num_tasks m2) - 1 <= length ys)%nat ->
     (Z.to_nat (num_tasks m2) <= fuel2)%nat ->
     exists ys1 ys2 m3,
       ys = ys1 ++ ys2 /\ run fuel2 ys1 m2 = Done tt m3 /\
       current_task m3 = current_task m).
Proof.
  intros Hwf Hd. split.
  { intros Hlt. unfold size_add. apply Z.mod_small.
    pose proof (clock_nonneg (env m)) as Hnn. unfold clock in *. lia. }
  set (c := current_task m). set (D := size_add (clock (env m)) d).
  pose proof (sleep_call_post fuel d m Hwf) as Hpost. fold c D in Hpost.
  split; [| split; [| split]].
  - destruct (task_sleep fuel d m) as [r m1 | m1 | m1]; [| | contradiction]; cbn [final].
    + destruct Hpost as (_ & (ts & H1 & _ & H3) & _). exists ts. tauto.
    + destruct Hpost as (ts & H1 & _ & H3). exists ts. tauto.
  - intros ops. cbn [run]. unfold bind.
    change (step fuel (Sleep d) m) with (forget (task_sleep fuel d m)).
    destruct (task_sleep fuel d m) as [r m1 | m1 | m1] eqn:Ecall; [| | contradiction];
      cbn [forget final].
    + destruct Hpost as (_ & _ & [Has | [Hcur Hclk]]).
      * intros Hlt. destruct (run_asleep fuel c D ops m1 Has) as [[Hrec Hne] | Hge]; [| lia].
        split; [| exact Hne]. destruct Hrec as (ts & H1 & H2 & _).
        unfold status_of. rewrite H1. cbn. f_equal. exact H2.
      * intros Hlt. exfalso.
        assert (Hwf1 : wf m1).
        { pose proof (step_clock fuel (Sleep d) m Hwf) as [_ Hw]. apply Hw.
          change (step fuel (Sleep d) m) with (forget (task_sleep fuel d m)).
          rewrite Ecall. reflexivity. }
        pose proof (run_clock fuel ops m1 Hwf1). lia.
    + intros Hlt. split; [| discriminate].
      destruct Hpost as (ts & H1 & H2 & _).
      unfold status_of. rewrite H1. cbn. f_equal. exact H2.
  - intros Hfuel. destruct (sleep_call_returns fuel d m Hwf Hd Hfuel) as [m1 Hm1].
    rewrite Hm1 in Hpost. exists m1. split; [exact Hm1 |]. tauto.
  - intros m2 fuel2 ys Has Hclk Hys Hlen Hfuel2.
    pose proof Has as (Hwf2 & _ & Hc2 & Hne2). pose proof Hwf2 as (_ & Hcur2 & _).
    destruct (ring_reaches (current_task m2) c (num_tasks m2) Hcur2 Hc2 Hne2)
      as (k & Hk & Hring).
    apply (wake_within fuel2 c D k m2 ys); try assumption; lia.
Qed.

End Clock.

(** * More on the code *)

(** ** Every call comes back to its caller *)

(** X1.  No call into the scheduler ever ends in the [swapcontext] of
    [schedule]: whenever [schedule], [task_exit], [task_wait],
    [task_sleep] or [task_readchar] terminates, in whatever state it was
    called, control is back in the caller. *)

Theorem calls_never_switch (fuel : nat) m saved target m' :
  (forall t, schedule fuel t m <> Done (switched saved target) m') /\
  task_exit fuel m <> Done (switched saved target) m' /\
  (forall h, task_wait fuel h m <> Done (switched saved target) m') /\
  (forall ms, task_sleep fuel ms m <> Done (switched saved target) m') /\
  task_readchar fuel m <> Done (switched saved target) m'.
Proof.
  split; [intros t; apply schedule_never_switches |].
  split; [| split; [| split]].
  - unfold task_exit, bind, rd_current, wr_task.
    destruct (slot (tasks m) (current_task m)); [| discriminate].
    apply schedule_never_switches.
  - intros h. unfold task_wait, bind, rd_current, wr_task.
    destruct (slot (tasks m) (current_task m)); [| discriminate].
    cbn [with_tasks tasks current_task].
    destruct (slot _ (current_task m)); [| discriminate].
    apply schedule_never_switches.
  - intros ms. unfold task_sleep, bind, rd_current, wr_task, call_time_ms.
    destruct (slot (tasks m) (current_task m)); [| discriminate].
    cbn [with_tasks with_env tasks current_task].
    destruct (slot _ (current_task m)); [| discriminate].
    apply schedule_never_switches.
  - unfold task_readchar, bind at 1, rd_current, bind at 1, wr_task.
    destruct (slot (tasks m) (current_task m)); [| discriminate].
    unfold bind. cbn [with_tasks tasks current_task].
    match goal with
    | |- context [schedule fuel ?t ?mm] =>
        destruct (schedule fuel t mm) as [[[] | s tg] m1 | m1 | m1] eqn:Es
    end; try discriminate.
    + unfold rd_current, rd_task, ret.
      destruct (slot (tasks m1) (current_task m1)); discriminate.
    + exfalso. eapply schedule_never_switches; eauto.
Qed.

(** ** Handles and bounds *)

Lemma step_wf fuel o m m' :
  wf m -> step fuel o m = Done tt m' ->
  wf m' /\
  num_tasks m' = num_tasks m + (if yields o then 0 else 1) /\
  brk m' = (brk m + (if yields o then 0 else 2))%nat.
Proof.
  intros Hwf Hstep. destruct (yields o) eqn:Hy.
  - pose proof (step_yield fuel o m Hwf Hy) as Hpost. rewrite Hstep in Hpost.
    cbn [yield_post loop_post] in Hpost.
    destruct Hpost as (j & ti & Hj & Hi & Hsl & Hel & Hmiss & Hm').
    pose proof (park_wf o m Hwf) as Hwf'. pose proof Hwf' as (Hok' & Hc' & Hn').
    pose proof (ring_range (current_task m) (num_tasks (park o m)) j) as Hr.
    rewrite <- Hi in Hr.
    split; [rewrite Hm'; apply chosen_wf; [exact Hwf' | apply Hr; lia] |].
    rewrite Hm'. cbn [chosen num_tasks brk]. rewrite park_num.
    split; [lia |]. unfold park. destruct (slot (tasks m) (current_task m)); cbn; lia.
  - destruct o; try discriminate. cbn [step] in Hstep.
    apply forget_Done in Hstep as [h Hc]. pose proof Hwf as (Hok & Hcur & Hn).
    destruct (slot (tasks m) (num_tasks m)) as [old |] eqn:Hs.
    + rewrite (task_create_spec fn m old Hs) in Hc. injection Hc as <- <-.
      destruct (slot_Some _ _ _ Hs) as [Hr _].
      unfold wf, table_ok in *. cbn. rewrite length_insert. repeat split; lia.
    + rewrite task_create_outside in Hc; [discriminate | assumption |].
      unfold INT_MAX, MAX_TASKS in *. lia.
Qed.

Lemma creates_nonneg ops : 0 <= creates ops.
Proof. induction ops as [| o ops IH]; cbn; [lia |]. destruct (yields o); lia. Qed.

(** X2.  Handles are issued in sequence and only [task_create] issues
    them: over any completed sequence of calls [num_tasks] grows by
    exactly the number of [task_create] calls in it, and two stacks are
    allocated per task created; a [task_create] made afterwards returns
    that count as its handle, above every handle issued before. *)

Theorem handles_count_creates (fuel : nat) (ops : list op) : forall m m',
  wf m -> run fuel ops m = Done tt m' ->
  wf m' /\
  num_tasks m' = num_tasks m + creates ops /\
  brk m' = (brk m + 2 * Z.to_nat (creates ops))%nat /\
  forall fn h m'', task_create fn m' = Done h m'' ->
                   h = num_tasks m + creates ops.
Proof.
  induction ops as [| o ops IH]; intros m m' Hwf Hrun.
  - injection Hrun as <-. cbn [creates]. repeat split; try apply Hwf; try lia.
    intros fn h m'' Hc. pose proof Hwf as (Hok & _ & _).
    destruct (slot (tasks m) (num_tasks m)) as [old |] eqn:Hs.
    + rewrite (task_create_spec fn m old Hs) in Hc. injection Hc as <- _. lia.
    + unfold task_create, bind at 1, rd_num, bind at 1 in Hc.
      destruct (num_tasks m =? INT_MAX); [discriminate |].
      unfold wr_num, bind, wr_task in Hc. cbn [with_num tasks] in Hc.
      rewrite Hs in Hc. discriminate.
  - cbn [run] in Hrun. unfold bind in Hrun.
    destruct (step fuel o m) as [[] m1 | m1 | m1] eqn:Hstep; try discriminate.
    destruct (step_wf fuel o m m1 Hwf Hstep) as (Hwf1 & Hn1 & Hb1).
    destruct (IH m1 m' Hwf1 Hrun) as (Hwf' & Hn' & Hb' & Hh').
    pose proof (creates_nonneg ops) as Hnn.
    cbn [creates]. split; [exact Hwf' |]. split; [lia |]. split.
    + rewrite Hb', Hb1. destruct (yields o); lia.
    + intros fn h m'' Hc. rewrite (Hh' fn h m'' Hc). lia.
Qed.

(** X3.  Below capacity nothing is undefined: as long as the tasks already
    in the table and the [task_create] calls of a sequence together stay
    within [MAX_TASKS], no call of the sequence indexes outside the table,
    divides by zero or overflows, however the polling goes. *)

Theorem runs_stay_in_bounds (fuel : nat) (ops : list op) : forall m,
  wf m -> num_tasks m + creates ops <= MAX_TASKS ->
  forall m', run fuel ops m <> Undefined m'.
Proof.
  induction ops as [| o ops IH]; intros m Hwf Hcap m'; [discriminate |].
  cbn [run]. unfold bind. cbn [creates] in Hcap.
  pose proof (creates_nonneg ops) as Hnn.
  destruct (step fuel o m) as [[] m1 | m1 | m1] eqn:Hstep.
  - destruct (step_wf fuel o m m1 Hwf Hstep) as (Hwf1 & Hn1 & _).
    apply IH; [exact Hwf1 | lia].
  - discriminate.
  - exfalso. destruct (yields o) eqn:Hy.
    + pose proof (step_yield fuel o m Hwf Hy) as Hpost. rewrite Hstep in Hpost.
      exact Hpost.
    + destruct o; try discriminate. cbn [step] in Hstep.
      pose proof Hwf as (Hok & Hcur & Hn).
      destruct (slot_in_range (tasks m) (num_tasks m) Hok ltac:(lia)) as [old Hs].
      rewrite (task_create_spec fn m old Hs) in Hstep. discriminate.
Qed.

(** ** What a scan touches *)

Lemma picked_keeps ti w :
  context (picked ti w) = context ti /\
  exit_context (picked ti w) = exit_context ti /\
  wake_time (picked ti w) = wake_time ti /\
  join_thread (picked ti w) = join_thread ti /\
  (status ti <> blocked_on_input -> input (picked ti w) = input ti).
Proof.
  unfold picked. destruct (Z.eqb_spec (status ti) blocked_on_input);
    cbn; repeat split; trivial; intros; contradiction.
Qed.

(** X4.  A scan writes one record and nothing else.  When [schedule t]
    comes back, [num_tasks], the allocator and every record but the
    selected one are as before; the selected record was ready or blocked
    (and, if it was in a join, its target is the caller [t]), it is now
    [is_running], and its contexts, wake time and join target are
    untouched; its [input] field changes only if it was waiting for a
    key.  A scan that has selected nothing yet has written nothing. *)

Theorem schedule_frame (fuel : nat) (t : Z) m :
  table_ok m -> 0 <= t < MAX_TASKS -> 0 < num_tasks m <= MAX_TASKS ->
  (forall r m', schedule fuel t m = Done r m' ->
     num_tasks m' = num_tasks m /\ brk m' = brk m /\
     (forall j, j <> current_task m' -> slot (tasks m') j = slot (tasks m) j) /\
     exists ti ti',
       slot (tasks m) (current_task m') = Some ti /\
       slot (tasks m') (current_task m') = Some ti' /\
       (status ti = ready \/ status ti = blocked_on_sleep \/
        status ti = blocked_on_join \/ status ti = blocked_on_input) /\
       (status ti = blocked_on_join -> join_thread ti = t) /\
       status ti' = is_running /\
       context ti' = context ti /\ exit_context ti' = exit_context ti /\
       wake_time ti' = wake_time ti /\ join_thread ti' = join_thread ti /\
       (status ti <> blocked_on_input -> input ti' = input ti)) /\
  (forall m', schedule fuel t m = Spin m' ->
     tasks m' = tasks m /\ current_task m' = current_task m /\
     num_tasks m' = num_tasks m /\ brk m' = brk m).
Proof.
  intros Hok Ht Hn. pose proof (schedule_spec t m fuel Hok Ht Hn) as Hpost. split.
  - intros r m' Hs. rewrite Hs in Hpost. cbn [schedule_post loop_post] in Hpost.
    destruct Hpost as [_ (j & ti & Hj & Hi & Hsl & Hel & Hmiss & Hm')].
    split; [rewrite Hm'; reflexivity |]. split; [rewrite Hm'; reflexivity |]. split.
    + intros j' Hne. rewrite Hm' at 1. rewrite (slot_chosen _ _ _ _ _ Hsl).
      apply decide_False. congruence.
    + exists ti, (picked ti (skipped t m j)). split; [exact Hsl |]. split.
      { rewrite Hm' at 1. rewrite (slot_chosen _ _ _ _ _ Hsl). apply decide_True.
        reflexivity. }
      split; [eapply eligible_status; eauto |]. split.
      { intros Hst. unfold eligible in Hel. rewrite Hst in Hel. cbn in Hel.
        apply Z.eqb_eq in Hel. congruence. }
      split; [apply picked_status |]. apply picked_keeps.
  - intros m' Hs. rewrite Hs in Hpost. cbn [schedule_post loop_post] in Hpost.
    destruct Hpost as [_ ->]. repeat split.
Qed.

(** ** Scans that cannot end, scans that must *)

Lemma never_eligible_false t ti (w : world) :
  never_eligible t ti -> eligible t ti w = false.
Proof.
  intros (Hr & Hs & Hi & Hj). unfold eligible.
  destruct (Z.eqb_spec (status ti) ready); [contradiction |].
  destruct (Z.eqb_spec (status ti) blocked_on_sleep); [contradiction |].
  destruct (Z.eqb_spec (status ti) blocked_on_join) as [Hst |].
  - apply Z.eqb_neq. intros Heq. apply (Hj Hst). congruence.
  - destruct (Z.eqb_spec (status ti) blocked_on_input); [contradiction | reflexivity].
Qed.

Lemma surely_eligible_true t ti (w : world) :
  surely_eligible t ti -> eligible t ti w = true.
Proof.
  intros [Hr | [Hj Ht]]; unfold eligible.
  - rewrite Hr. reflexivity.
  - rewrite Hj, Ht. cbn. apply Z.eqb_refl.
Qed.

Lemma schedule_spins (fuel : nat) (t : Z) m :
  table_ok m -> 0 <= t < MAX_TASKS -> 0 < num_tasks m <= MAX_TASKS ->
  (forall i ti, 0 <= i < num_tasks m -> slot (tasks m) i = Some ti ->
                never_eligible t ti) ->
  schedule fuel t m = Spin (with_env (skipped t m fuel) m).
Proof.
  intros Hok Ht Hn Hdead. pose proof (schedule_spec t m fuel Hok Ht Hn) as Hpost.
  destruct (schedule fuel t m) as [r m' | m' | m']; cbn [schedule_post loop_post] in Hpost.
  - exfalso. destruct Hpost as [_ (j & ti & Hj & Hi & Hsl & Hel & _)].
    pose proof (ring_range t (num_tasks m) j ltac:(lia)) as Hr. rewrite <- Hi in Hr.
    rewrite (never_eligible_false t ti _ (Hdead _ ti Hr Hsl)) in Hel. discriminate.
  - destruct Hpost as [_ ->]. reflexivity.
  - contradiction.
Qed.

(** X5.  The scheduler detects no deadlock.  When none of the existing
    tasks can be woken by polling (each has exited, is marked running,
    or waits in a join for a task other than the caller), [schedule t]
    never comes back: for every amount of fuel it is still polling,
    having paused once per look and written nothing. *)

Theorem schedule_polls_forever (fuel : nat) (t : Z) m :
  table_ok m -> 0 <= t < MAX_TASKS -> 0 < num_tasks m <= MAX_TASKS ->
  (forall i ti, 0 <= i < num_tasks m -> slot (tasks m) i = Some ti ->
                never_eligible t ti) ->
  schedule fuel t m = Spin (with_env (skipped t m fuel) m).
Proof. apply schedule_spins. Qed.

Lemma ring_covers t n i :
  0 < n -> 0 <= i < n -> exists k, (k < Z.to_nat n)%nat /\ ring t n k = i.
Proof.
  intros Hn Hi. pose proof (Z.mod_pos_bound (i - t - 1) n Hn) as Hb.
  exists (Z.to_nat ((i - t - 1) mod n)). split; [lia |].
  unfold ring. rewrite Z2Nat.id by lia. rewrite Zplus_mod_idemp_r.
  replace (t + 1 + (i - t - 1)) with i by lia. apply Z.mod_small. exact Hi.
Qed.

(** X6.  A task that is ready, or that waits in a join for the caller,
    ends the scan within one round: if such a task exists, [schedule t]
    given fuel for [num_tasks] looks comes back, having selected that
    task or one met earlier in ring order. *)

Theorem schedule_returns_within_a_round (t : Z) m i ti :
  table_ok m -> 0 <= t < MAX_TASKS -> 0 < num_tasks m <= MAX_TASKS ->
  0 <= i < num_tasks m -> slot (tasks m) i = Some ti -> surely_eligible t ti ->
  exists m' j k,
    schedule (Z.to_nat (num_tasks m)) t m = Done (returned tt) m' /\
    (j <= k < Z.to_nat (num_tasks m))%nat /\
    ring t (num_tasks m) k = i /\
    current_task m' = ring t (num_tasks m) j.
Proof.
  intros Hok Ht Hn Hi Hsl Hsure.
  destruct (ring_covers t (num_tasks m) i ltac:(lia) Hi) as (k & Hk & Hring).
  assert (Hhit : hit t m k).
  { exists ti. rewrite Hring. split; [exact Hsl | apply surely_eligible_true; exact Hsure]. }
  pose proof (schedule_spec t m (Z.to_nat (num_tasks m)) Hok Ht Hn) as Hpost.
  destruct (schedule (Z.to_nat (num_tasks m)) t m) as [r m' | m' | m'];
    cbn [schedule_post loop_post] in Hpost; [| | contradiction].
  - destruct Hpost as [[[] ->] (j & tj & Hj & Hcur & _ & _ & Hmiss & _)].
    exists m', j, k. split; [reflexivity |]. split; [| split; assumption].
    split; [| exact Hk].
    destruct (le_lt_dec j k) as [Hle | Hgt]; [exact Hle |].
    exfalso. apply (hit_not_miss _ _ _ Hhit). apply Hmiss. lia.
  - exfalso. destruct Hpost as [Hmiss _].
    apply (hit_not_miss _ _ _ Hhit). apply Hmiss. lia.
Qed.

(** ** Exit *)

Lemma exited_not_eligible t ti (w : world) :
  status ti = exited -> eligible t ti w = false.
Proof. intros Hst. unfold eligible. rewrite Hst. reflexivity. Qed.

(** X7.  [task_exit] marks its caller [exited] and hands over: in
    whatever state the call is, the caller's record is [exited]; if the
    call comes back, a task other than the caller has been selected and
    is running; and if no other task can be woken by polling, the call
    never comes back. *)

Theorem task_exit_hands_over (fuel : nat) m :
  wf m ->
  status_of (final (task_exit fuel m)) (current_task m) = Some exited /\
  (forall r m', task_exit fuel m = Done r m' ->
     r = returned tt /\ gone (current_task m) m' /\
     status_of m' (current_task m') = Some is_running) /\
  ((forall i ti, 0 <= i < num_tasks m -> i <> current_task m ->
                 slot (tasks m) i = Some ti -> never_eligible (current_task m) ti) ->
   exists m', task_exit fuel m = Spin m').
Proof.
  intros Hwf. pose proof Hwf as (Hok & Hc & Hn).
  destruct (wf_slot_current m Hwf) as [tc Htc].
  rewrite task_exit_park by assumption.
  pose proof (park_wf Exit m Hwf) as Hwf'. pose proof Hwf' as (Hok' & Hc' & Hn').
  rewrite park_current, park_num in Hc'. rewrite park_num in Hn'.
  assert (Hpos : 0 < num_tasks (park Exit m) <= MAX_TASKS) by (rewrite park_num; lia).
  assert (Hcm : 0 <= current_task m < MAX_TASKS) by lia.
  assert (Hparked : slot (tasks (park Exit m)) (current_task m) = Some (set_status exited tc)).
  { rewrite (slot_park _ m tc _ Htc). apply decide_True. reflexivity. }
  pose proof (schedule_spec (current_task m) (park Exit m) fuel Hok' Hcm Hpos) as Hpost.
  split; [| split].
  - destruct (schedule fuel (current_task m) (park Exit m)) as [r m' | m' | m'];
      cbn [schedule_post loop_post] in Hpost; [| | contradiction]; cbn [final].
    + destruct Hpost as [_ (j & ti & Hj & Hi & Hsl & Hel & Hmiss & Hm')].
      assert (Hne : current_task m' <> current_task m).
      { intros Heq. rewrite Heq, Hparked in Hsl. injection Hsl as <-.
        rewrite exited_not_eligible in Hel by reflexivity. discriminate. }
      unfold status_of. rewrite Hm' at 1. rewrite (slot_chosen _ _ _ _ _ Hsl).
      rewrite decide_False by exact Hne. rewrite Hparked. reflexivity.
    + destruct Hpost as [_ ->]. unfold status_of. cbn [tasks with_env].
      rewrite Hparked. reflexivity.
  - intros r m' Hs. rewrite Hs in Hpost. cbn [schedule_post loop_post] in Hpost.
    destruct Hpost as [[[] ->] (j & ti & Hj & Hi & Hsl & Hel & Hmiss & Hm')].
    assert (Hne : current_task m' <> current_task m).
    { intros Heq. rewrite Heq, Hparked in Hsl. injection Hsl as <-.
      rewrite exited_not_eligible in Hel by reflexivity. discriminate. }
    pose proof (ring_range (current_task m) (num_tasks (park Exit m)) j (proj1 Hpos)) as Hr.
    rewrite <- Hi, park_num in Hr.
    assert (Hnum : num_tasks m' = num_tasks m) by (rewrite Hm'; cbn; apply park_num).
    split; [reflexivity |]. split; [split; [| split; [| split]] |].
    + rewrite Hm'. apply chosen_wf; [exact Hwf' | rewrite park_num; exact Hr].
    + unfold status_of. rewrite Hm' at 1. rewrite (slot_chosen _ _ _ _ _ Hsl).
      rewrite decide_False by exact Hne. rewrite Hparked. reflexivity.
    + rewrite Hnum. exact Hc.
    + exact Hne.
    + unfold status_of. rewrite Hm' at 1. rewrite (slot_chosen _ _ _ _ _ Hsl).
      rewrite decide_True by reflexivity. cbn. f_equal. apply picked_status.
  - intros Hdead. eexists.
    apply (schedule_spins fuel (current_task m) (park Exit m) Hok' Hcm Hpos).
    intros i ti Hi Hsl. rewrite park_num in Hi.
    rewrite (slot_park _ m tc _ Htc) in Hsl.
    destruct (decide (current_task m = i)) as [<- | Hnei].
    + injection Hsl as <-. repeat split; cbn; try discriminate.
    + apply (Hdead i ti Hi); [congruence | exact Hsl].
Qed.

(** ** Once exited *)

Lemma step_gone fuel o h m :
  gone h m ->
  status_of (final (step fuel o m)) h = Some exited /\
  forall m1, step fuel o m = Done tt m1 -> gone h m1.
Proof.
  intros Hg. pose proof Hg as (Hwf & Hex & Hh & Hch). pose proof Hwf as (Hok & Hc & Hn).
  unfold status_of in Hex.
  destruct (slot (tasks m) h) as [th |] eqn:Hsh; [| discriminate]. injection Hex as Hex.
  destruct (yields o) eqn:Hy.
  - pose proof (step_yield fuel o m Hwf Hy) as Hpost.
    destruct (wf_slot_current m Hwf) as [tc Htc].
    pose proof (park_wf o m Hwf) as Hwf'.
    assert (Hsh' : slot (tasks (park o m)) h = Some th).
    { rewrite (slot_park o m tc _ Htc), decide_False by exact Hch. exact Hsh. }
    destruct (step fuel o m) as [[] m1 | m1 | m1]; cbn [yield_post loop_post] in Hpost;
      [| | contradiction]; cbn [final].
    + destruct Hpost as (j & ti & Hj & Hi & Hsl & Hel & Hmiss & Hm1).
      assert (Hne : current_task m1 <> h).
      { intros Heq. rewrite Heq, Hsh' in Hsl. injection Hsl as <-.
        rewrite exited_not_eligible in Hel by exact Hex. discriminate. }
      assert (Hs1 : slot (tasks m1) h = Some th).
      { rewrite Hm1 at 1. rewrite (slot_chosen _ _ _ _ _ Hsl).
        rewrite decide_False by exact Hne. exact Hsh'. }
      split; [unfold status_of; rewrite Hs1; cbn; f_equal; exact Hex |].
      intros m1' [= <-].
      pose proof Hwf' as (Hok' & Hc' & Hn').
      assert (Hpos : 0 < num_tasks (park o m)) by lia.
      pose proof (ring_range (current_task m) (num_tasks (park o m)) j Hpos) as Hr.
      rewrite <- Hi in Hr.
      split; [rewrite Hm1; apply chosen_wf; [exact Hwf' | exact Hr] |].
      split; [unfold status_of; rewrite Hs1; cbn; f_equal; exact Hex |].
      split; [rewrite Hm1; cbn; rewrite park_num; exact Hh | exact Hne].
    + destruct Hpost as [_ ->]. split; [| discriminate].
      unfold status_of. cbn [tasks with_env]. rewrite Hsh'. cbn. f_equal. exact Hex.
  - destruct o; try discriminate. cbn [step].
    destruct (slot (tasks m) (num_tasks m)) as [old |] eqn:Hs.
    + rewrite (task_create_spec fn m old Hs). cbn [forget final].
      destruct (slot_Some _ _ _ Hs) as [Hr _].
      assert (Hs1 : slot (<[Z.to_nat (num_tasks m) := created fn (num_tasks m) (brk m) old]>
                           (tasks m)) h = Some th).
      { rewrite slot_insert_ne by lia. exact Hsh. }
      split; [unfold status_of; cbn [tasks]; rewrite Hs1; cbn; f_equal; exact Hex |].
      intros m1 [= <-]. unfold gone, status_of. cbn [tasks num_tasks current_task].
      rewrite Hs1. split; [| cbn; split; [f_equal; exact Hex | lia]].
      unfold wf, table_ok in *. cbn. rewrite length_insert. repeat split; lia.
    + rewrite task_create_outside; [| exact Hs | unfold INT_MAX, MAX_TASKS in *; lia].
      cbn [forget final]. split; [| discriminate].
      unfold status_of. cbn [tasks with_num]. rewrite Hsh. cbn. f_equal. exact Hex.
Qed.

(** X8.  An exited task is never scheduled again.  Once a task has
    exited and another task is current, then whatever calls follow, in
    every state the scheduler reaches its record is still [exited], and
    no call comes back with it as current task. *)

Theorem exited_never_scheduled (fuel : nat) (h : Z) (ops : list op) : forall m,
  wf m -> 0 <= h < num_tasks m -> status_of m h = Some exited ->
  current_task m <> h ->
  status_of (final (run fuel ops m)) h = Some exited /\
  forall m', run fuel ops m = Done tt m' -> current_task m' <> h.
Proof.
  induction ops as [| o ops IH]; intros m Hwf Hh Hex Hc.
  - cbn. split; [exact Hex |]. intros m' [= <-]. exact Hc.
  - cbn [run]. unfold bind.
    assert (Hg : gone h m) by exact (conj Hwf (conj Hex (conj Hh Hc))).
    destruct (step_gone fuel o h m Hg) as [Hfin Hdone].
    destruct (step fuel o m) as [[] m1 | m1 | m1]; cbn [final] in Hfin.
    + destruct (Hdone m1 eq_refl) as (Hwf1 & Hex1 & Hh1 & Hc1).
      apply IH; assumption.
    + split; [exact Hfin | discriminate].
    + split; [exact Hfin | discriminate].
Qed.

(** ** Reading a key *)

(** X9.  What [task_readchar] returns is the [input] field of the record
    that [current_task] names when [schedule] comes back.  When that is
    the caller's own record, the value is a key that [getch] handed out
    to the scan at the look that selected the caller: it is not [ERR],
    and that [getch] call is the last thing that happened to the
    keyboard. *)

Theorem readchar_returns_current_input (fuel : nat) m r m' :
  wf m -> task_readchar fuel m = Done r m' ->
  exists v,
    r = returned v /\
    input <$> slot (tasks m') (current_task m') = Some v /\
    (current_task m' = current_task m ->
     v <> ERR /\
     exists k, (k < fuel)%nat /\
       getch (skipped (current_task m) (park Readchar m) k) = (v, env m')).
Proof.
  intros Hwf Hcall. pose proof Hwf as (Hok & Hc & Hn).
  destruct (wf_slot_current m Hwf) as [tc Htc].
  rewrite task_readchar_park in Hcall by assumption.
  pose proof (park_wf Readchar m Hwf) as Hwf'. pose proof Hwf' as (Hok' & Hc' & Hn').
  rewrite park_current, park_num in Hc'.
  assert (Hpos : 0 < num_tasks (park Readchar m) <= MAX_TASKS) by (rewrite park_num; lia).
  assert (Hcm : 0 <= current_task m < MAX_TASKS) by lia.
  pose proof (schedule_spec (current_task m) (park Readchar m) fuel Hok' Hcm Hpos) as Hpost.
  unfold bind at 1 in Hcall.
  destruct (schedule fuel (current_task m) (park Readchar m)) as [r1 m1 | m1 | m1];
    try discriminate.
  cbn [schedule_post loop_post] in Hpost.
  destruct Hpost as [[[] ->] (j & ti & Hj & Hi & Hsl & Hel & Hmiss & Hm1)].
  assert (Hcur : slot (tasks m1) (current_task m1) =
                 Some (picked ti (skipped (current_task m) (park Readchar m) j))).
  { rewrite Hm1 at 1. rewrite (slot_chosen _ _ _ _ _ Hsl). apply decide_True. reflexivity. }
  unfold bind, rd_current, rd_task, ret in Hcall. rewrite Hcur in Hcall.
  injection Hcall as <- <-.
  eexists. split; [reflexivity |]. split; [rewrite Hcur; reflexivity |].
  intros Heq. rewrite Heq in Hsl.
  rewrite (slot_park Readchar m tc _ Htc), decide_True in Hsl by reflexivity.
  injection Hsl as <-.
  unfold eligible in Hel. cbn in Hel. apply negb_true_iff, Z.eqb_neq in Hel.
  rewrite picked_input by reflexivity. split; [exact Hel |].
  exists j. split; [lia |]. rewrite Hm1. cbn.
  destruct (getch (skipped (current_task m) (park Readchar m) j)). reflexivity.
Qed.

(** ** Stacks *)

Lemma parked_contexts o tc (w : world) :
  context (parked o tc w) = context tc /\ exit_context (parked o tc w) = exit_context tc.
Proof. destruct o; split; reflexivity. Qed.

Lemma has_stack_parked o tc (w : world) sp :
  has_stack (parked o tc w) sp -> has_stack tc sp.
Proof.
  unfold has_stack. destruct (parked_contexts o tc w) as [-> ->]. trivial.
Qed.

Lemma has_stack_picked ti (w : world) sp :
  has_stack (picked ti w) sp -> has_stack ti sp.
Proof.
  unfold has_stack. destruct (picked_keeps ti w) as (-> & -> & _). trivial.
Qed.

Lemma park_stacks o m : stacks_below m -> stacks_below (park o m).
Proof.
  intros Hst. unfold park.
  destruct (slot (tasks m) (current_task m)) as [tc |] eqn:Htc; [| exact Hst].
  intros i ti sp. cbn [tasks brk]. rewrite (slot_insert _ _ i tc) by exact Htc.
  destruct (decide (current_task m = i)) as [<- | Hne].
  - intros [= <-] Hhas. apply (Hst _ tc sp Htc). eapply has_stack_parked; eauto.
  - apply Hst.
Qed.

Lemma chosen_stacks m i ti (w : world) :
  stacks_below m -> slot (tasks m) i = Some ti -> stacks_below (chosen m i ti w).
Proof.
  intros Hst Hsl j tj sp. rewrite (slot_chosen _ _ _ _ _ Hsl). cbn [chosen brk].
  destruct (decide (i = j)) as [<- | Hne].
  - intros [= <-] Hhas. apply (Hst _ ti sp Hsl). eapply has_stack_picked; eauto.
  - apply Hst.
Qed.

Lemma created_facts fn index sp old :
  status (created fn index sp old) = ready /\
  uc_resume (context (created fn index sp old)) = resume_call fn /\
  uc_link (context (created fn index sp old)) = Some index /\
  uc_resume (exit_context (created fn index sp old)) = resume_call fn_task_exit /\
  uc_stack_sp (context (created fn index sp old)) = Some (S sp) /\
  uc_stack_sp (exit_context (created fn index sp old)) = Some sp /\
  uc_stack_size (context (created fn index sp old)) = STACK_SIZE /\
  uc_stack_size (exit_context (created fn index sp old)) = STACK_SIZE.
Proof. repeat split. Qed.

Lemma step_stacks fuel o m m' :
  wf m -> stacks_below m -> step fuel o m = Done tt m' -> stacks_below m'.
Proof.
  intros Hwf Hst Hstep. destruct (yields o) eqn:Hy.
  - pose proof (step_yield fuel o m Hwf Hy) as Hpost. rewrite Hstep in Hpost.
    cbn [yield_post loop_post] in Hpost.
    destruct Hpost as (j & ti & _ & _ & Hsl & _ & _ & Hm').
    rewrite Hm'. apply chosen_stacks; [apply park_stacks; exact Hst | exact Hsl].
  - destruct o; try discriminate. cbn [step] in Hstep.
    apply forget_Done in Hstep as [h Hc]. pose proof Hwf as (Hok & Hcur & Hn).
    destruct (slot (tasks m) (num_tasks m)) as [old |] eqn:Hs.
    + rewrite (task_create_spec fn m old Hs) in Hc. injection Hc as <- <-.
      intros i ti sp. cbn [tasks brk]. rewrite (slot_insert _ _ i old) by exact Hs.
      destruct (decide (num_tasks m = i)) as [<- | Hne].
      * intros [= <-] [Hhas | Hhas]; cbn in Hhas; injection Hhas as <-; lia.
      * intros Hsl Hhas. pose proof (Hst i ti sp Hsl Hhas). lia.
    + rewrite task_create_outside in Hc; [discriminate | assumption |].
      unfold INT_MAX, MAX_TASKS in *. lia.
Qed.

Lemma run_stacks fuel ops : forall m m',
  wf m -> sole_running m -> stacks_below m -> run fuel ops m = Done tt m' ->
  stacks_below m'.
Proof.
  induction ops as [| o ops IH]; intros m m' Hwf Hsole Hst Hrun.
  - injection Hrun as <-. exact Hst.
  - cbn [run] in Hrun. unfold bind in Hrun.
    destruct (step fuel o m) as [[] m1 | m1 | m1] eqn:Hstep; try discriminate.
    destruct (step_keeps fuel o m m1 Hwf Hsole Hstep) as [Hwf1 Hsole1].
    apply (IH m1 m' Hwf1 Hsole1); [| exact Hrun].
    exact (step_stacks fuel o m m1 Hwf Hst Hstep).
Qed.

Lemma started_stacks (w : world) : stacks_below (started w).
Proof.
  rewrite started_eq. intros j tj sp. cbn [with_tasks tasks boot].
  change 0%nat with (Z.to_nat 0).
  rewrite (slot_insert _ 0 j zero_task) by reflexivity.
  destruct (decide (0 = j)) as [<- | Hne].
  - intros [= <-] [Hh | Hh]; discriminate.
  - intros Hs. apply slot_Some in Hs as [_ Hl].
    apply lookup_replicate_1 in Hl as [-> _]. intros [Hh | Hh]; discriminate.
Qed.

(** X10.  [task_create] gives every task two stacks of its own.  At any
    point of a program that began with [scheduler_init], a [task_create]
    that comes back leaves the new record [ready], its context set to
    enter the task's function and linked to the task's own exit context,
    the exit context set to enter [task_exit], each on a stack of
    [STACK_SIZE] bytes; the two stacks are the next two blocks of the
    allocator, which no context of any other record uses. *)

Theorem task_create_fresh_stacks (w : world) (fuel : nat) (ops : list op)
    (fn : code) m h m' :
  run fuel ops (started w) = Done tt m ->
  task_create fn m = Done h m' ->
  exists tn,
    slot (tasks m') h = Some tn /\
    status tn = ready /\
    uc_resume (context tn) = resume_call fn /\
    uc_link (context tn) = Some h /\
    uc_resume (exit_context tn) = resume_call fn_task_exit /\
    uc_stack_sp (context tn) = Some (S (brk m)) /\
    uc_stack_sp (exit_context tn) = Some (brk m) /\
    uc_stack_size (context tn) = STACK_SIZE /\
    uc_stack_size (exit_context tn) = STACK_SIZE /\
    forall j tj sp, j <> h -> slot (tasks m') j = Some tj -> has_stack tj sp ->
                    (sp < brk m)%nat.
Proof.
  intros Hrun Hc.
  destruct (run_keeps fuel ops (started w) m (started_wf w) (started_sole_running w) Hrun)
    as [Hwf Hsole].
  pose proof (run_stacks fuel ops (started w) m (started_wf w) (started_sole_running w)
                (started_stacks w) Hrun) as Hst.
  pose proof Hwf as (Hok & Hcur & Hn).
  destruct (slot (tasks m) (num_tasks m)) as [old |] eqn:Hs.
  - rewrite (task_create_spec fn m old Hs) in Hc. injection Hc as <- <-.
    exists (created fn (num_tasks m) (brk m) old). cbn [tasks].
    split; [eapply slot_insert_eq; eauto |].
    destruct (created_facts fn (num_tasks m) (brk m) old)
      as (H1 & H2 & H3 & H4 & H5 & H6 & H7 & H8).
    repeat (split; [assumption |]).
    intros j tj sp Hne. rewrite (slot_insert _ _ j old) by exact Hs.
    rewrite decide_False by congruence. apply Hst.
  - rewrite task_create_outside in Hc; [discriminate | assumption |].
    unfold INT_MAX, MAX_TASKS in *. lia.
Qed.

(** ** scheduler_init *)

(** X11.  [scheduler_init] is no reset: it writes the status of record 0
    and nothing else.  Called again once another task is the current one,
    it leaves [current_task] where it was and two records [is_running]. *)


(** ** What is never written *)

Lemma step_contexts fuel o m h :
  wf m -> 0 <= h < num_tasks m ->
  contexts_at (final (step fuel o m)) h = contexts_at m h.
Proof.
  intros Hwf Hh. pose proof Hwf as (Hok & Hc & Hn).
  destruct (slot_in_range (tasks m) h Hok ltac:(lia)) as [th Hth].
  unfold contexts_at. rewrite Hth. destruct (yields o) eqn:Hy.
  - pose proof (step_yield fuel o m Hwf Hy) as Hpost.
    destruct (wf_slot_current m Hwf) as [tc Htc].
    assert (Hpark : (fun ti => (context ti, exit_context ti)) <$> slot (tasks (park o m)) h
                    = Some (context th, exit_context th)).
    { rewrite (slot_park o m tc _ Htc).
      destruct (decide (current_task m = h)) as [Heq | Hne].
      - rewrite Heq, Hth in Htc. injection Htc as <-. cbn.
        destruct (parked_contexts o th (env m)) as [-> ->]. reflexivity.
      - rewrite Hth. reflexivity. }
    destruct (step fuel o m) as [[] m1 | m1 | m1]; cbn [yield_post loop_post] in Hpost;
      [| | contradiction]; cbn [final].
    + destruct Hpost as (j & ti & Hj & Hi & Hsl & Hel & Hmiss & Hm1).
      rewrite Hm1 at 1. rewrite (slot_chosen _ _ _ _ _ Hsl).
      destruct (decide (current_task m1 = h)) as [Heq | Hne]; [| exact Hpark].
      rewrite Heq, Hsl in *. cbn in Hpark |- *.
      destruct (picked_keeps ti (skipped (current_task m) (park o m) j)) as (-> & -> & _).
      exact Hpark.
    + destruct Hpost as [_ ->]. exact Hpark.
  - destruct o; try discriminate. cbn [step].
    destruct (slot (tasks m) (num_tasks m)) as [old |] eqn:Hs.
    + rewrite (task_create_spec fn m old Hs). cbn [forget final tasks].
      rewrite slot_insert_ne by (destruct (slot_Some _ _ _ Hs); lia).
      rewrite Hth. reflexivity.
    + rewrite task_create_outside; [| exact Hs | unfold INT_MAX, MAX_TASKS in *; lia].
      cbn [forget final with_num tasks]. rewrite Hth. reflexivity.
Qed.

(** X13.  The saved contexts of a task are written by [task_create] and
    never again: whatever calls follow, in every state the scheduler
    reaches both contexts of every existing task are what they were.  In
    particular no call ever saves an execution point into a task's
    record. *)

Theorem contexts_never_rewritten (fuel : nat) (h : Z) (ops : list op) : forall m,
  wf m -> 0 <= h < num_tasks m ->
  contexts_at (final (run fuel ops m)) h = contexts_at m h.
Proof.
  induction ops as [| o ops IH]; intros m Hwf Hh; [reflexivity |].
  cbn [run]. unfold bind.
  pose proof (step_contexts fuel o m h Hwf Hh) as Hstep.
  destruct (step fuel o m) as [[] m1 | m1 | m1] eqn:Es; cbn [final] in Hstep;
    try exact Hstep.
  destruct (step_wf fuel o m m1 Hwf Es) as (Hwf1 & Hn1 & _).
  rewrite IH; [exact Hstep | exact Hwf1 |]. destruct (yields o); lia.
Qed.

(** ** The shape of the table *)

Lemma parked_known o tc (w : world) :
  yields o = true -> known_status (status (parked o tc w)).
Proof. unfold known_status. destruct o; cbn; intros; try discriminate; tauto. Qed.

Lemma started_shaped (w : world) : shaped (started w).
Proof.
  rewrite started_eq. intros j tj. cbn [with_tasks tasks num_tasks boot].
  change 0%nat with (Z.to_nat 0).
  rewrite (slot_insert _ 0 j zero_task) by reflexivity.
  destruct (decide (0 = j)) as [<- | Hne].
  - intros [= <-]. split; [left; reflexivity | lia].
  - intros Hs. pose proof (slot_Some _ _ _ Hs) as [Hr Hl].
    apply lookup_replicate_1 in Hl as [-> _]. split; [lia | reflexivity].
Qed.

Lemma step_shaped fuel o m m' :
  wf m -> shaped m -> step fuel o m = Done tt m' -> shaped m'.
Proof.
  intros Hwf Hsh Hstep. pose proof Hwf as (Hok & Hc & Hn).
  destruct (yields o) eqn:Hy.
  - pose proof (step_yield fuel o m Hwf Hy) as Hpost. rewrite Hstep in Hpost.
    cbn [yield_post loop_post] in Hpost.
    destruct Hpost as (j & ti & Hj & Hi & Hsl & Hel & Hmiss & Hm').
    destruct (wf_slot_current m Hwf) as [tc Htc].
    pose proof (ring_range (current_task m) (num_tasks m) j ltac:(lia)) as Hr.
    rewrite park_num in Hi. rewrite <- Hi in Hr.
    intros i ti'. rewrite Hm' at 1. rewrite (slot_chosen _ _ _ _ _ Hsl).
    replace (num_tasks m') with (num_tasks m) by (rewrite Hm'; cbn; symmetry; apply park_num).
    destruct (decide (current_task m' = i)) as [<- | Hne].
    + intros [= <-]. split; [| lia]. intros _. left. apply picked_status.
    + rewrite (slot_park o m tc _ Htc).
      destruct (decide (current_task m = i)) as [<- | Hne'].
      * intros [= <-]. split; [| lia]. intros _. apply parked_known. exact Hy.
      * apply Hsh.
  - destruct o; try discriminate. cbn [step] in Hstep.
    apply forget_Done in Hstep as [h Hcr].
    destruct (slot (tasks m) (num_tasks m)) as [old |] eqn:Hs.
    + rewrite (task_create_spec fn m old Hs) in Hcr. injection Hcr as <- <-.
      intros i ti'. cbn [tasks num_tasks]. rewrite (slot_insert _ _ i old) by exact Hs.
      destruct (decide (num_tasks m = i)) as [<- | Hne].
      * intros [= <-]. split; [| lia]. intros _. unfold known_status. cbn. tauto.
      * intros Hsl. destruct (Hsh i ti' Hsl) as [Hlo Hhi].
        split; intros Hi; [apply Hlo | apply Hhi]; lia.
    + rewrite task_create_outside in Hcr; [discriminate | assumption |].
      unfold INT_MAX, MAX_TASKS in *. lia.
Qed.

(** X14.  At any point of a program that began with [scheduler_init],
    the table is in one piece: [num_tasks] is between 1 and [MAX_TASKS],
    [current_task] names an existing task, every existing task has one of
    the six status values of the source, and every slot from [num_tasks]
    on is still the zeroed record of program start. *)

Theorem table_stays_shaped (w : world) (fuel : nat) (ops : list op) m :
  run fuel ops (started w) = Done tt m ->
  0 <= current_task m < num_tasks m /\ num_tasks m <= MAX_TASKS /\
  length (tasks m) = Z.to_nat MAX_TASKS /\
  (forall i ti, 0 <= i < num_tasks m -> slot (tasks m) i = Some ti ->
                known_status (status ti)) /\
  (forall i ti, num_tasks m <= i -> slot (tasks m) i = Some ti -> ti = zero_task).
Proof.
  intros Hrun.
  assert (Hgen : forall ops m0 m1, wf m0 -> shaped m0 -> run fuel ops m0 = Done tt m1 ->
                                    wf m1 /\ shaped m1).
  { clear. induction ops as [| o ops IH]; intros m0 m1 Hwf Hsh Hrun.
    - injection Hrun as <-. tauto.
    - cbn [run] in Hrun. unfold bind in Hrun.
      destruct (step fuel o m0) as [[] m2 | m2 | m2] eqn:Es; try discriminate.
      destruct (step_wf fuel o m0 m2 Hwf Es) as (Hwf2 & _).
      apply (IH m2 m1 Hwf2); [| exact Hrun].
      exact (step_shaped fuel o m0 m2 Hwf Hsh Es). }
  destruct (Hgen ops (started w) m (started_wf w) (started_shaped w) Hrun)
    as [(Hok & Hc & Hn) Hsh].
  repeat split; try lia; try exact Hok.
  - intros i ti Hi Hsl. apply (Hsh i ti Hsl). lia.
  - intros i ti Hi Hsl. apply (Hsh i ti Hsl). exact Hi.
Qed.

End Proofs.

(** * The simulated platform, and the properties on concrete runs *)

#[export] Instance sim_clock : ClockLaws sim.
Proof.
  split.
  - intros w. cbn. lia.
  - intros w. cbn. lia.
  - intros w. cbn. unfold sim_getch.
    destruct (sim_keys w) as [| [at_ms key] rest]; cbn; [lia |].
    destruct (at_ms <=? sim_now w)%N; cbn; lia.
  - intros n w Hn. cbn. lia.
Qed.

Lemma two_tasks_wf : wf two_tasks.
Proof. unfold wf, table_ok. vm_compute. repeat split; congruence. Qed.

Lemma one_exited_wf : wf one_exited.
Proof. unfold wf, table_ok. vm_compute. repeat split; congruence. Qed.

Lemma full_table_ok : table_ok full_table.
Proof. unfold table_ok. vm_compute. reflexivity. Qed.

(** C1 (the code at a failing input).  [main] has parked itself in
    [task_sleep 5] and calls [schedule 0] with one other task [ready].
    The scan selects slot 1, which is not the caller, and yet [schedule]
    comes back to its caller: no [swapcontext] takes place, and the
    caller's saved context in the table is what it was. *)

Theorem schedule_skips_swapcontext :
  exists m',
    schedule 1 0 (park (Sleep 5) two_tasks) = Done (returned tt) m' /\
    current_task m' = 1 /\
    status_of m' 1 = Some is_running /\
    context <$> slot (tasks m') 0 = context <$> slot (tasks two_tasks) 0.
Proof. eexists. split; [vm_compute; reflexivity |]. vm_compute. auto. Qed.

(** A run to its end: two tasks are created, then [main] sleeps, and a
    join, a sleep and an exit follow. *)

Lemma exactly_one_running_witness :
  let ops := [Create (user_fn 0); Create (user_fn 1); Sleep 3; Wait 1; Sleep 0; Exit] in
  run 4 ops (started quiet) = Done tt (final (run 4 ops (started quiet))) /\
  exists i, status_of (final (run 4 ops (started quiet))) i = Some is_running /\
            forall j, status_of (final (run 4 ops (started quiet))) j = Some is_running -> j = i.
Proof.
  intros ops.
  assert (Hrun : run 4 ops (started quiet) = Done tt (final (run 4 ops (started quiet))))
    by (vm_compute; reflexivity).
  split; [exact Hrun |].
  exact (exactly_one_running quiet 4 ops _ Hrun).
Defined.

(** C3 (the claim fails).  With [MAX_TASKS] tasks in the table
    [task_create] does not leave [num_tasks] as it was. *)

Lemma task_create_at_capacity :
  num_tasks full_table = MAX_TASKS /\
  task_create (user_fn 127) full_table
    = Undefined (with_num (MAX_TASKS + 1) full_table) /\
  num_tasks (final (task_create (user_fn 127) full_table)) <> num_tasks full_table.
Proof.
  split; [vm_compute; reflexivity |].
  split; [vm_compute; reflexivity |].
  vm_compute. discriminate.
Qed.

Lemma task_create_unchecked_witness :
  table_ok full_table /\
  (num_tasks full_table = MAX_TASKS ->
   task_create (user_fn 127) full_table = Undefined (with_num (MAX_TASKS + 1) full_table)).
Proof.
  split; [exact full_table_ok |].
  exact (proj2 (task_create_unchecked (user_fn 127) full_table full_table_ok)).
Defined.

(** C4 (the code at a failing input).  [main] joins task 1, which has not
    run yet.  [task_wait] comes back to [main] at once, with task 1 just
    selected; and when task 1 then only sleeps, [main]'s record is selected
    again although task 1 has not exited. *)

Theorem join_resumes_before_exit :
  (exists m1, task_wait 1 1 two_tasks = Done (returned tt) m1 /\
              status_of m1 1 = Some is_running) /\
  exists m2, run 1 [Wait 1; Sleep 0] two_tasks = Done tt m2 /\
             current_task m2 = 0 /\
             status_of m2 0 = Some is_running /\
             status_of m2 1 = Some blocked_on_sleep.
Proof.
  split; eexists; (split; [vm_compute; reflexivity |]); vm_compute; auto.
Qed.

(** C5 (the claim fails).  Handle 57 was never issued; [task_wait 57]
    comes back as any other call does, with 57 recorded as join target. *)

Lemma task_wait_unissued_handle :
  ~ (0 <= 57 < num_tasks two_tasks) /\
  exists m', task_wait 1 57 two_tasks = Done (returned tt) m' /\
             join_thread <$> slot (tasks m') 0 = Some 57.
Proof.
  split; [vm_compute; intros [_ Hlt]; discriminate |].
  eexists. split; vm_compute; reflexivity.
Qed.

Lemma task_wait_unchecked_witness :
  wf two_tasks /\ ~ (0 <= 57 < num_tasks two_tasks) /\
  forall m', task_wait 1 57 two_tasks <> Undefined m'.
Proof.
  assert (Hh : ~ (0 <= 57 < num_tasks two_tasks))
    by (vm_compute; intros [_ Hlt]; discriminate).
  split; [exact two_tasks_wf |]. split; [exact Hh |].
  exact (proj1 (task_wait_unchecked 1 57 two_tasks two_tasks_wf Hh)).
Defined.

Lemma schedule_ring_order_witness :
  table_ok two_tasks /\ 0 <= 0 < MAX_TASKS /\ 0 < num_tasks two_tasks <= MAX_TASKS /\
  first_eligible 1 0 two_tasks (final (schedule 1 0 two_tasks)).
Proof.
  assert (Hok : table_ok two_tasks) by apply two_tasks_wf.
  assert (Ht : 0 <= 0 < MAX_TASKS) by (vm_compute; split; congruence).
  assert (Hn : 0 < num_tasks two_tasks <= MAX_TASKS) by (vm_compute; split; congruence).
  repeat (split; [assumption |]).
  apply (schedule_ring_order 1 0 two_tasks _ Hok Ht Hn).
  vm_compute. reflexivity.
Defined.

(** C7 (the code at a failing input).  [main] calls [task_readchar] with
    the key 'x' (120) already typed and one other task [ready].  The call
    comes back with 0, the [input] field of the task just selected, which
    nobody ever wrote; the key is still in the keyboard queue and [main]'s
    record is still [blocked_on_input]. *)

Theorem readchar_returns_unread_field :
  exists m',
    task_readchar 1 two_tasks_key = Done (returned 0) m' /\
    sim_keys (env m') = [(0%N, 120)] /\
    current_task m' = 1 /\
    status_of m' 0 = Some blocked_on_input.
Proof. eexists. split; [vm_compute; reflexivity |]. vm_compute. auto. Qed.

(** Alone in the table, [main] reads a key that arrives after 50 ms: the
    scan comes round to [main]'s own slot at each look, and the call
    returns the key once it is there. *)

Example readchar_alone_gets_key :
  exists m',
    task_readchar 60 (started (Sim 0 [(50%N, 120)])) = Done (returned 120) m' /\
    sim_keys (env m') = [] /\ sim_now (env m') = 50%N /\ current_task m' = 0.
Proof. eexists. split; [vm_compute; reflexivity |]. vm_compute. auto. Qed.

Lemma sleep_until_deadline_witness :
  wf two_tasks /\ 0 <= 5 /\
  size_add (clock (env two_tasks)) 5 = clock (env two_tasks) + 5 /\
  exists ts, slot (tasks (final (task_sleep 7 5 two_tasks))) (current_task two_tasks) = Some ts /\
             wake_time ts = size_add (clock (env two_tasks)) 5.
Proof.
  split; [exact two_tasks_wf |]. split; [lia |].
  destruct (sleep_until_deadline 7 5 two_tasks two_tasks_wf ltac:(lia)) as (Hsum & Hrec & _).
  split; [apply Hsum; vm_compute; reflexivity | exact Hrec].
Defined.

(** C8 (the claim fails).  [main], alone, calls [task_sleep] for
    2^64 - 1 ms when the clock reads 5.  The sum wraps: the wake time
    recorded is 4, not [5 + (2^64 - 1)], and the call comes back at once
    with the sleeper selected again, the clock still reading 5. *)

Lemma sleep_deadline_wraps :
  let m := started (Sim 5 []) in
  let d := 2 ^ 64 - 1 in
  clock (env m) = 5 /\
  exists m',
    task_sleep 1 d m = Done (returned tt) m' /\
    wake_time <$> slot (tasks m') (current_task m) = Some 4 /\
    4 <> clock (env m) + d /\
    current_task m' = current_task m /\
    status_of m' (current_task m) = Some is_running /\
    clock (env m') < clock (env m) + d.
Proof.
  intros m d. split; [vm_compute; reflexivity |].
  eexists. split; [vm_compute; reflexivity |].
  vm_compute. repeat split; congruence.
Qed.

(** C10 (the claim fails).  Task 1 has exited and [main] is asleep with
    its deadline passed.  Task 2, the current task, calls [task_wait 1]:
    the call does not block its caller, it comes back at once with [main]
    selected; the caller's record is left [blocked_on_join] on task 1. *)


Lemma self_join_returns_witness :
  wf one_exited /\ (Z.to_nat (num_tasks one_exited) <= 2)%nat /\
  exists m',
    task_wait 2 (current_task one_exited) one_exited = Done (returned tt) m' /\
    current_task m' = current_task one_exited /\
    status_of m' (current_task one_exited) = Some is_running /\
    join_thread <$> slot (tasks m') (current_task one_exited)
      = Some (current_task one_exited).
Proof.
  assert (Hfuel : (Z.to_nat (num_tasks one_exited) <= 2)%nat) by (vm_compute; lia).
  split; [exact one_exited_wf |]. split; [exact Hfuel |].
  destruct (self_join_returns 2 one_exited one_exited_wf Hfuel)
    as (tc & m' & k & ti & _ & _ & _ & Hret & _ & _ & _ & _ & _ & _ & Hjoin & Hown & _).
  exists m'. split; [exact Hret |].
  assert (Hall : forall j, (j < Z.to_nat (num_tasks one_exited) - 1)%nat ->
                           miss (current_task one_exited)
                                (park (Wait (current_task one_exited)) one_exited) j).
  { intros j Hj. replace j with 0%nat by (vm_compute in Hj; lia).
    eexists. split; vm_compute; reflexivity. }
  destruct (Hown Hall) as (_ & Hcur & Hst).
  split; [exact Hcur |]. split; [exact Hst | exact Hjoin].
Defined.


(** * The keyboard queue *)

Lemma sim_miss_keeps_keys t ti (w : sim) :
  real_keys w -> eligible t ti w = false ->
  sim_keys (probe_world ti w) = sim_keys w.
Proof.
  intros Hreal Hel. unfold probe_world.
  destruct (status ti =? blocked_on_sleep) eqn:Es; [reflexivity |].
  destruct (status ti =? blocked_on_input) eqn:Ei; [| reflexivity].
  unfold eligible in Hel. rewrite Es, Ei in Hel.
  destruct (status ti =? ready); [discriminate |].
  destruct (status ti =? blocked_on_join) eqn:Ej.
  { apply Z.eqb_eq in Ej, Ei. rewrite Ej in Ei. discriminate. }
  apply negb_false_iff, Z.eqb_eq in Hel. cbn in Hel |- *.
  unfold sim_getch in *. unfold real_keys in Hreal.
  destruct (sim_keys w) as [| [at_ms key] rest] eqn:Ek; [exact Ek |].
  destruct (at_ms <=? sim_now w)%N; [| exact Ek].
  cbn in Hel. inversion Hreal as [| ? ? Hk _]. contradiction.
Qed.

Lemma sim_skipped_keys t (m : machine sim) k :
  real_keys (env m) ->
  (forall j, (j < k)%nat -> miss t m j) ->
  sim_keys (skipped t m k) = sim_keys (env m).
Proof.
  intros Hreal. induction k as [| k IH]; intros Hmiss; [reflexivity |].
  specialize (IH ltac:(intros j Hj; apply Hmiss; lia)).
  destruct (Hmiss k ltac:(lia)) as (ti & Hsl & Hel).
  cbn [skipped]. rewrite Hsl. cbn [sleep_ms sim_platform sim_keys].
  rewrite (sim_miss_keeps_keys t ti (skipped t m k)); [exact IH | | exact Hel].
  unfold real_keys. rewrite IH. exact Hreal.
Qed.

(** X12.  No key is lost and none is handed out twice.  On the simulated
    keyboard, a [schedule] call takes at most one key off the queue; it
    takes one exactly when the record it selects was waiting for a key,
    the key is the head of the queue, and it is stored in the [input]
    field of that record. *)

Theorem schedule_consumes_one_key (fuel : nat) (t : Z) (m : machine sim) r m' :
  table_ok m -> 0 <= t < MAX_TASKS -> 0 < num_tasks m <= MAX_TASKS ->
  real_keys (env m) ->
  schedule fuel t m = Done r m' ->
  (status_of m (current_task m') <> Some blocked_on_input /\
   sim_keys (env m') = sim_keys (env m)) \/
  (status_of m (current_task m') = Some blocked_on_input /\
   exists at_ms key,
     sim_keys (env m) = (at_ms, key) :: sim_keys (env m') /\
     input <$> slot (tasks m') (current_task m') = Some key).
Proof.
  intros Hok Ht Hn Hreal Hs.
  pose proof (schedule_spec t m fuel Hok Ht Hn) as Hpost. rewrite Hs in Hpost.
  cbn [schedule_post loop_post] in Hpost.
  destruct Hpost as [_ (j & ti & Hj & Hi & Hsl & Hel & Hmiss & Hm')].
  pose proof (sim_skipped_keys t m j Hreal ltac:(intros j' Hj'; apply Hmiss; lia)) as Hkeys.
  assert (Hcur : slot (tasks m') (current_task m') = Some (picked ti (skipped t m j))).
  { rewrite Hm' at 1. rewrite (slot_chosen _ _ _ _ _ Hsl). apply decide_True. reflexivity. }
  assert (Henv : env m' = probe_world ti (skipped t m j)) by (rewrite Hm'; reflexivity).
  unfold status_of. rewrite Hsl, Hcur, Henv. cbn [fmap option_fmap option_map].
  destruct (Z.eqb_spec (status ti) blocked_on_input) as [Hin | Hnin].
  - right. split; [f_equal; exact Hin |].
    rewrite picked_input by exact Hin.
    unfold probe_world. rewrite Hin. cbn [Z.eqb]. 
    change (blocked_on_input =? blocked_on_sleep) with false.
    change (blocked_on_input =? blocked_on_input) with true. cbn iota.
    unfold eligible in Hel. rewrite Hin in Hel. cbn in Hel.
    apply negb_true_iff, Z.eqb_neq in Hel. rewrite <- Hkeys.
    change (@getch sim sim_platform) with sim_getch in *.
    unfold sim_getch in *.
    destruct (sim_keys (skipped t m j)) as [| [at_ms key] rest]; [contradiction |].
    destruct (at_ms <=? sim_now (skipped t m j))%N; [| contradiction].
    exists at_ms, key. split; reflexivity.
  - left. split; [intros [= E]; contradiction |].
    rewrite <- Hkeys. unfold probe_world.
    destruct (status ti =? blocked_on_sleep); [reflexivity |].
    destruct (Z.eqb_spec (status ti) blocked_on_input); [contradiction | reflexivity].
Qed.

(** * The further properties on concrete runs *)

Lemma started_quiet_wf : wf (started quiet).
Proof. apply started_wf. Qed.

Lemma handles_count_creates_witness :
  let ops := [Create (user_fn 0); Sleep 3; Create (user_fn 1)] in
  wf (started quiet) /\
  run 4 ops (started quiet) = Done tt (final (run 4 ops (started quiet))) /\
  num_tasks (final (run 4 ops (started quiet))) = num_tasks (started quiet) + creates ops.
Proof.
  intros ops.
  assert (Hrun : run 4 ops (started quiet) = Done tt (final (run 4 ops (started quiet))))
    by (vm_compute; reflexivity).
  split; [exact started_quiet_wf |]. split; [exact Hrun |].
  exact (proj1 (proj2 (handles_count_creates 4 ops _ _ started_quiet_wf Hrun))).
Defined.

Lemma runs_stay_in_bounds_witness :
  let ops := [Create (user_fn 0); Wait 7; Create (user_fn 1); Exit] in
  wf (started quiet) /\
  num_tasks (started quiet) + creates ops <= MAX_TASKS /\
  forall m', run 3 ops (started quiet) <> Undefined m'.
Proof.
  intros ops.
  assert (Hcap : num_tasks (started quiet) + creates ops <= MAX_TASKS)
    by (vm_compute; discriminate).
  split; [exact started_quiet_wf |]. split; [exact Hcap |].
  exact (runs_stay_in_bounds 3 ops (started quiet) started_quiet_wf Hcap).
Defined.

Lemma schedule_frame_witness :
  table_ok two_tasks /\ 0 <= 0 < MAX_TASKS /\ 0 < num_tasks two_tasks <= MAX_TASKS /\
  forall r m', schedule 1 0 two_tasks = Done r m' ->
    num_tasks m' = num_tasks two_tasks /\ brk m' = brk two_tasks.
Proof.
  assert (Hok : table_ok two_tasks) by apply two_tasks_wf.
  assert (Ht : 0 <= 0 < MAX_TASKS) by (vm_compute; split; congruence).
  assert (Hn : 0 < num_tasks two_tasks <= MAX_TASKS) by (vm_compute; split; congruence).
  repeat (split; [assumption |]).
  intros r m' Hs.
  destruct (proj1 (schedule_frame 1 0 two_tasks Hok Ht Hn) r m' Hs) as (H1 & H2 & _).
  split; assumption.
Defined.

Lemma last_exit_wf : wf (park Exit (started quiet)).
Proof. apply park_wf, started_wf. Qed.

Lemma last_exit_dead :
  forall i ti, 0 <= i < num_tasks (park Exit (started quiet)) ->
               slot (tasks (park Exit (started quiet))) i = Some ti ->
               never_eligible 0 ti.
Proof.
  intros i ti Hi. change (num_tasks (park Exit (started quiet))) with 1 in Hi.
  replace i with 0 by lia. vm_compute. intros [= <-].
  repeat split; try discriminate.
Qed.

Lemma schedule_polls_forever_witness :
  let m := park Exit (started quiet) in
  table_ok m /\ 0 <= 0 < MAX_TASKS /\ 0 < num_tasks m <= MAX_TASKS /\
  schedule 9 0 m = Spin (with_env (skipped 0 m 9) m).
Proof.
  intros m.
  assert (Hok : table_ok m) by apply last_exit_wf.
  assert (Ht : 0 <= 0 < MAX_TASKS) by (vm_compute; split; congruence).
  assert (Hn : 0 < num_tasks m <= MAX_TASKS) by (vm_compute; split; congruence).
  repeat (split; [assumption |]).
  exact (schedule_polls_forever 9 0 m Hok Ht Hn last_exit_dead).
Defined.

Lemma schedule_returns_within_a_round_witness :
  table_ok two_tasks /\ 0 <= 0 < MAX_TASKS /\ 0 < num_tasks two_tasks <= MAX_TASKS /\
  0 <= 1 < num_tasks two_tasks /\
  exists ti, slot (tasks two_tasks) 1 = Some ti /\ surely_eligible 0 ti /\
  exists m' j k,
    schedule (Z.to_nat (num_tasks two_tasks)) 0 two_tasks = Done (returned tt) m' /\
    (j <= k < Z.to_nat (num_tasks two_tasks))%nat /\
    ring 0 (num_tasks two_tasks) k = 1 /\
    current_task m' = ring 0 (num_tasks two_tasks) j.
Proof.
  assert (Hok : table_ok two_tasks) by apply two_tasks_wf.
  assert (Ht : 0 <= 0 < MAX_TASKS) by (vm_compute; split; congruence).
  assert (Hn : 0 < num_tasks two_tasks <= MAX_TASKS) by (vm_compute; split; congruence).
  assert (Hi : 0 <= 1 < num_tasks two_tasks) by (vm_compute; split; congruence).
  repeat (split; [assumption |]).
  destruct (slot (tasks two_tasks) 1) as [ti |] eqn:Hsl; [| vm_compute in Hsl; discriminate].
  assert (Hsure : surely_eligible 0 ti).
  { left. vm_compute in Hsl. injection Hsl as <-. reflexivity. }
  exists ti. split; [reflexivity |]. split; [exact Hsure |].
  exact (schedule_returns_within_a_round 0 two_tasks 1 ti Hok Ht Hn Hi Hsl Hsure).
Defined.

Lemma task_exit_hands_over_witness :
  wf two_tasks /\
  status_of (final (task_exit 2 two_tasks)) (current_task two_tasks) = Some exited.
Proof.
  split; [exact two_tasks_wf |].
  exact (proj1 (task_exit_hands_over 2 two_tasks two_tasks_wf)).
Defined.

Lemma exited_never_scheduled_witness :
  wf one_exited /\ 0 <= 1 < num_tasks one_exited /\
  status_of one_exited 1 = Some exited /\ current_task one_exited <> 1 /\
  status_of (final (run 3 [Sleep 2; Readchar] one_exited)) 1 = Some exited.
Proof.
  assert (Hh : 0 <= 1 < num_tasks one_exited) by (vm_compute; split; congruence).
  assert (Hex : status_of one_exited 1 = Some exited) by (vm_compute; reflexivity).
  assert (Hne : current_task one_exited <> 1) by (vm_compute; discriminate).
  split; [exact one_exited_wf |]. repeat (split; [assumption |]).
  exact (proj1 (exited_never_scheduled 3 1 [Sleep 2; Readchar] one_exited
                  one_exited_wf Hh Hex Hne)).
Defined.

Lemma readchar_returns_current_input_witness :
  let m := started (Sim 0 [(50%N, 120)]) in
  wf m /\
  exists r m', task_readchar 60 m = Done r m' /\
  exists v, r = returned v /\
            input <$> slot (tasks m') (current_task m') = Some v.
Proof.
  intros m. split; [apply started_wf |].
  destruct (task_readchar 60 m) as [r m' | m' | m'] eqn:Hcall;
    [| vm_compute in Hcall; discriminate | vm_compute in Hcall; discriminate].
  exists r, m'. split; [reflexivity |].
  destruct (readchar_returns_current_input 60 m r m' (started_wf _) Hcall)
    as (v & Hr & Hin & _).
  exists v. split; assumption.
Defined.

Lemma task_create_fresh_stacks_witness :
  let ops := [Create (user_fn 0); Sleep 1] in
  let m := final (run 2 ops (started quiet)) in
  let m' := final (task_create (user_fn 1) m) in
  run 2 ops (started quiet) = Done tt m /\
  task_create (user_fn 1) m = Done 2 m' /\
  exists tn, slot (tasks m') 2 = Some tn /\ status tn = ready.
Proof.
  intros ops m m'.
  assert (Hrun : run 2 ops (started quiet) = Done tt m) by (vm_compute; reflexivity).
  assert (Hc : task_create (user_fn 1) m = Done 2 m') by (vm_compute; reflexivity).
  split; [exact Hrun |]. split; [exact Hc |].
  destruct (task_create_fresh_stacks quiet 2 ops (user_fn 1) m 2 m' Hrun Hc)
    as (tn & H1 & H2 & _).
  exists tn. split; assumption.
Defined.


Lemma schedule_consumes_one_key_witness :
  let m := park Readchar (started (Sim 0 [(0%N, 120)])) in
  let m' := final (schedule 1 0 m) in
  table_ok m /\ 0 <= 0 < MAX_TASKS /\ 0 < num_tasks m <= MAX_TASKS /\
  real_keys (env m) /\ schedule 1 0 m = Done (returned tt) m' /\
  ((status_of m (current_task m') <> Some blocked_on_input /\
    sim_keys (env m') = sim_keys (env m)) \/
   (status_of m (current_task m') = Some blocked_on_input /\
    exists at_ms key,
      sim_keys (env m) = (at_ms, key) :: sim_keys (env m') /\
      input <$> slot (tasks m') (current_task m') = Some key)).
Proof.
  intros m m'.
  assert (Hok : table_ok m) by apply park_wf, started_wf.
  assert (Ht : 0 <= 0 < MAX_TASKS) by (vm_compute; split; congruence).
  assert (Hn : 0 < num_tasks m <= MAX_TASKS) by (vm_compute; split; congruence).
  assert (Hreal : real_keys (env m)).
  { vm_compute. constructor; [discriminate | constructor]. }
  assert (Hs : schedule 1 0 m = Done (returned tt) m') by (vm_compute; reflexivity).
  repeat (split; [assumption |]).
  exact (schedule_consumes_one_key 1 0 m (returned tt) m' Hok Ht Hn Hreal Hs).
Defined.

Lemma contexts_never_rewritten_witness :
  wf two_tasks /\ 0 <= 1 < num_tasks two_tasks /\
  contexts_at (final (run 2 [Sleep 0; Exit; Readchar] two_tasks)) 1
    = contexts_at two_tasks 1.
Proof.
  assert (Hh : 0 <= 1 < num_tasks two_tasks) by (vm_compute; split; congruence).
  split; [exact two_tasks_wf |]. split; [exact Hh |].
  exact (contexts_never_rewritten 2 1 [Sleep 0; Exit; Readchar] two_tasks two_tasks_wf Hh).
Defined.

Lemma table_stays_shaped_witness :
  let ops := [Create (user_fn 0); Create (user_fn 1); Sleep 3; Wait 1; Sleep 0; Exit] in
  let m := final (run 4 ops (started quiet)) in
  run 4 ops (started quiet) = Done tt m /\
  0 <= current_task m < num_tasks m /\ num_tasks m <= MAX_TASKS.
Proof.
  intros ops m.
  assert (Hrun : run 4 ops (started quiet) = Done tt m) by (vm_compute; reflexivity).
  split; [exact Hrun |].
  destruct (table_stays_shaped quiet 4 ops m Hrun) as (H1 & H2 & _).
  split; assumption.
Defined.
